(** * The CSS-extraction pass of the [compiled] Babel plugin

    A shallow embedding of the plugin entry point ([index.tsx]: the [pre]
    hook and the five visitors) and of the emitter and hoister
    ([utils/ast-builders.tsx]), followed by the properties the specification
    states about them. *)

From Stdlib Require Import ZArith Lia.
From stdpp Require Import base tactics option list strings pretty gmap sets.

Open Scope string_scope.
Open Scope list_scope.
Open Scope nat_scope.

(** ** Syntax trees

    The part of Babel's node types that the emitter and the entry visitor
    inspect or build.  Object members, JSX attributes and destructuring
    patterns are parametric in the node type so that [Node] is one nested
    inductive.  A member expression is an access [object.property] by
    name, an arrow function has an expression as its body, the name of a
    JSX element is kept as a node, an empty JSX expression carries its
    source location, and the elements of an array expression are optional:
    [None] is a hole, as in [[, x]]. *)

Record SourceLocation := mkLoc { loc_line : nat; loc_column : nat }.

Inductive ObjectMember (N : Type) :=
  | ObjectProperty (key : N) (value : N)
  | SpreadElement (argument : N)
  | ObjectMethod (kind : string) (key : N) (params : list string) (body : N).
Arguments ObjectProperty {N}.
Arguments SpreadElement {N}.
Arguments ObjectMethod {N}.

Inductive JSXAttr (N : Type) :=
  | JSXAttribute (name : string) (value : option N)
  | JSXSpreadAttribute (argument : N).
Arguments JSXAttribute {N}.
Arguments JSXSpreadAttribute {N}.

(** One property of an object pattern: [key: local = default]. *)
Record PatternProperty (N : Type) := mkPatternProperty {
  pat_key : string;
  pat_local : string;
  pat_default : option N
}.
Arguments mkPatternProperty {N}.
Arguments pat_key {N}.
Arguments pat_local {N}.
Arguments pat_default {N}.

Inductive Pattern (N : Type) :=
  | PIdentifier (name : string)
  | PObject (properties : list (PatternProperty N)) (rest : option string).
Arguments PIdentifier {N}.
Arguments PObject {N}.

#[local] Set Warnings "-register-all".

Inductive Node :=
  | Identifier (name : string)
  | StringLiteral (value : string)
  | NumericLiteral (value : Z)
  | MemberExpression (object : Node) (property : string)
  | ArrowFunctionExpression (params : list (Pattern Node)) (body : Node)
  | BinaryExpression (operator : string) (left right : Node)
  | ConditionalExpression (test consequent alternate : Node)
  | CallExpression (callee : Node) (arguments : list Node)
  | TaggedTemplateExpression (tag : Node) (quasis : list string)
      (expressions : list Node)
  | ObjectExpression (properties : list (ObjectMember Node))
  | ArrayExpression (elements : list (option Node))
  | JSXElement (name : Node) (attributes : list (JSXAttr Node))
      (children : list Node)
  | JSXExpressionContainer (expression : Node)
  | JSXEmptyExpression (loc : SourceLocation)
  | JSXText (value : string).

Inductive ImportSpecifierNode :=
  | ImportSpecifier (imported : string) (local : string)
  | ImportDefaultSpecifier (local : string)
  | ImportNamespaceSpecifier (local : string).

Inductive Statement :=
  | ImportDeclaration (specifiers : list ImportSpecifierNode) (source : string)
  | VariableDeclaration (kind : string) (id : string) (init : Node)
  | ExpressionStatement (expression : Node).

Definition isImportDeclaration (s : Statement) : bool :=
  match s with ImportDeclaration _ _ => true | _ => false end.

Definition isObjectMethod (p : ObjectMember Node) : bool :=
  match p with ObjectMethod _ _ _ _ => true | _ => false end.

Definition isJSXEmptyExpression (n : Node) : bool :=
  match n with JSXEmptyExpression _ => true | _ => false end.

(** ** Plugin state and the program under traversal *)

(** [state.compiledImports]: the record is present once the module opted in,
    its [styled] field holds the local name of the [styled] import. *)
Record CompiledImports := mkCompiledImports { styled : option string }.

(** [Tag] of [types.tsx]. *)
Inductive TagType := InBuiltComponent | UserDefinedComponent.
Record Tag := mkTag { tag_name : string; tag_type : TagType }.

(** One entry of [CSSOutput.variables]. *)
Record CssVariable := mkVar { var_name : string; var_expression : Node }.

Record CSSOutput := mkCSSOutput { css : string; variables : list CssVariable }.

(** The plugin pass object ([this] in [pre], [state] in the visitors).  The
    [sheets] object is used as a map from sheet text to the name of the
    identifier that was hoisted for it; its keys are rule texts such as
    [._1wyb1fwx{font-size:12px}], none of which is a property that a plain
    object inherits, and an identifier node is never falsy, so that the
    lookup [sheets[sheet]] is the lookup of the map.  [nonce] is
    [opts.nonce]. *)
Record State (Cache : Type) := mkState {
  compiledImports : option CompiledImports;
  sheets : gmap string string;
  nonce : option string;
  cache : option Cache
}.
Arguments mkState {Cache}.
Arguments compiledImports {Cache}.
Arguments sheets {Cache}.
Arguments nonce {Cache}.
Arguments cache {Cache}.

(** The program node with the scope information the host attaches to it:
    [bindings] answers [scope.getBinding], [taken] holds every other name a
    generated identifier has to avoid (references, globals, labels and the
    identifiers generated so far). *)
Record Program := mkProgram {
  body : list Statement;
  bindings : gset string;
  taken : gset string
}.

Record World (Cache : Type) := mkWorld {
  state : State Cache;
  program : Program
}.
Arguments mkWorld {Cache}.
Arguments state {Cache}.
Arguments program {Cache}.

(** ** Exceptions and the state-and-error monad of the visitors

    A visitor either returns a value together with the mutated plugin state
    and program, or throws.  [SyntaxError] is what the host's parser throws
    for a template text that does not parse; its message, which quotes the
    text, is not modelled. *)

Inductive JsError :=
  | Error (message : string)
  | TypeError (message : string)
  | SyntaxError.

(** [OutOfFuel] is not a result of the program: the model of the host's
    traversal is bounded by a fuel argument and answers [OutOfFuel] when the
    bound is too small for the tree at hand. *)
Inductive Result (A : Type) :=
  | Ok (a : A)
  | Throw (e : JsError)
  | OutOfFuel.
Arguments Ok {A}.
Arguments Throw {A}.
Arguments OutOfFuel {A}.

Section Monad.
Context {Cache : Type}.

Definition M (A : Type) : Type := World Cache → Result (A * World Cache).

Definition ret {A} (a : A) : M A := λ w, Ok (a, w).

Definition bind {A B} (m : M A) (k : A → M B) : M B :=
  λ w, match m w with
       | Ok (a, w') => k a w'
       | Throw e => Throw e
       | OutOfFuel => OutOfFuel
       end.

Definition throw {A} (e : JsError) : M A := λ _, Throw e.

Definition get_state : M (State Cache) := λ w, Ok (state w, w).
Definition get_program : M Program := λ w, Ok (program w, w).
Definition put_state (s : State Cache) : M unit :=
  λ w, Ok (tt, mkWorld s (program w)).
Definition put_program (p : Program) : M unit :=
  λ w, Ok (tt, mkWorld (state w) p).

(** [xs.map(f)] where [f] has effects: left to right. *)
Fixpoint mapM {A B} (f : A → M B) (xs : list A) : M (list B) :=
  match xs with
  | [] => ret []
  | x :: xs' =>
      bind (f x) (λ y, bind (mapM f xs') (λ ys, ret (y :: ys)))
  end.
End Monad.

Arguments M : clear implicits.

Notation "'let*' x ':=' m 'in' k" := (bind m (λ x, k))
(at level 10, x name, m at level 100, k at level 200, only parsing).
Notation "'do*' m 'in' k" := (bind m (λ _, k))
(at level 10, m at level 100, k at level 200, only parsing).

(** ** Unique identifiers

  Modelled from the spec: the host's generator of unique identifiers (the
  spec's external interface "a way to request generation of unique
  identifiers"; Babel's [scope.generateUidIdentifier], not part of this
  repository).  It tries [_name], [_name2], [_name3], ... and returns the
  first one that is neither bound nor otherwise taken in the program, then
  marks it as taken. *)

Definition uid_candidate (name : string) (i : nat) : string :=
"_" +:+ name +:+ (if decide (i ≤ 1) then "" else pretty i).

Fixpoint generateUid_from (fuel i : nat) (name : string) (used : gset string)
  : string :=
match fuel with
| 0 => uid_candidate name i
| S fuel' =>
    if decide (uid_candidate name i ∈ used)
    then generateUid_from fuel' (S i) name used
    else uid_candidate name i
end.

Definition generateUid (name : string) (p : Program) : string :=
let used := bindings p ∪ taken p in
generateUid_from (size used) 1 name used.

(** [Array.prototype.splice(index, 0, x)] for a non-negative index: an index
  past the end appends. *)
Definition splice_insert {A} (index : nat) (x : A) (l : list A) : list A :=
take index l ++ x :: drop index l.

(** Index of the first element of [parent.filter(p => !p.isImportDeclaration())]. *)
Fixpoint firstNonImport (l : list Statement) : option nat :=
match l with
| [] => None
| s :: l' =>
    if isImportDeclaration s then S <$> firstNonImport l' else Some 0
end.

Section Hoister.
Context {Cache : Type}.
Definition generateUidIdentifier (name : string) : M Cache string :=
  let* p := get_program in
  let uid := generateUid name p in
  do* put_program (mkProgram (body p) (bindings p) ({[uid]} ∪ taken p)) in
  ret uid.

(** [path.insertBefore(node)] on the statement at [index] of the body. *)
Definition insertBefore (index : nat) (node : Statement) : M Cache unit :=
  let* p := get_program in
  put_program (mkProgram (splice_insert index node (body p))
                 (bindings p) (taken p)).

Definition set_sheet (sheet id : string) : M Cache unit :=
  let* st := get_state in
  put_state (mkState (compiledImports st) (<[sheet := id]> (sheets st))
               (nonce st) (cache st)).

(** [hoistSheet]: hoists a sheet to the top of the module if it is not
    already there and returns the referencing identifier.  When the body
    has no statement other than imports, [path] is [undefined] and the
    call of [insertBefore] on it throws. *)
Definition hoistSheet (sheet : string) : M Cache string :=
  let* st := get_state in
  match sheets st !! sheet with
  | Some id => ret id
  | None =>
      let* sheetIdentifier := generateUidIdentifier "" in
      let* p := get_program in
      match firstNonImport (body p) with
      | None =>
          throw (TypeError "Cannot read property 'insertBefore' of undefined")
      | Some path =>
          do* insertBefore path
                (VariableDeclaration "const" sheetIdentifier
                   (StringLiteral sheet)) in
          do* set_sheet sheet sheetIdentifier in
          ret sheetIdentifier
      end
  end.
End Hoister.

(** ** The emitter ([utils/ast-builders.tsx]) *)

(** [xs.map(f)] where [f] updates a local accumulator. *)
Definition map_acc {A B S} (f : A → S → B * S) : list A → S → list B * S :=
  fix go (l : list A) (s : S) : list B * S :=
    match l with
    | [] => ([], s)
    | x :: l' =>
        let '(y, s1) := f x s in
        let '(ys, s2) := go l' s1 in
        (y :: ys, s2)
    end.

(** Modelled from the spec: [unique] of the repository's [@compiled/utils]
    package, which is not among the sources at hand.  The spec's data model
    says of the variables: "Duplicates by [name] are collapsed preserving
    first occurrence."  [seen] is the set of keys met so far. *)
Fixpoint unique_from {A} (key : A → string) (seen : gset string) (l : list A)
    : list A :=
  match l with
  | [] => []
  | x :: l' =>
      if decide (key x ∈ seen) then unique_from key seen l'
      else x :: unique_from key ({[key x]} ∪ seen) l'
  end.

Definition unique {A} (l : list A) (key : A → string) : list A :=
  unique_from key ∅ l.

(** [buildCssVariablesProp]: the CSS variables as object properties.  The
    [transform] callback of the styled API records prop names in a local
    array, so it is modelled with an accumulator of type [S]. *)
Definition buildCssVariablesProp {S} (variables : list CssVariable)
    (transform : Node → S → Node * S) (s : S)
    : list (ObjectMember Node) * S :=
  map_acc
    (λ variable s,
       let '(e, s') := transform (var_expression variable) s in
       (ObjectProperty (StringLiteral (var_name variable)) e, s'))
    (unique variables var_name) s.

(** The default [transform]: the identity on expressions. *)
Definition identityTransform (expression : Node) (s : unit) : Node * unit :=
  (expression, s).

(** [styledStyleProp]: [{ ...style, "--var": expr, ... }]. *)
Definition styledStyleProp {S} (variables : list CssVariable)
    (transform : Node → S → Node * S) (s : S) : Node * S :=
  let '(props, s') := buildCssVariablesProp variables transform s in
  (ObjectExpression ([SpreadElement (Identifier "style")] ++ props), s').

(** [buildComponentTag]: the tag is spliced into the template text, quoted
    for an in-built component; parsed back it is a string literal or an
    identifier. *)
Definition buildComponentTag (tag : Tag) : Node :=
  match tag_type tag with
  | InBuiltComponent => StringLiteral (tag_name tag)
  | UserDefinedComponent => Identifier (tag_name tag)
  end.

(** Modelled from the spec: [pickFunctionBody] of [utils/ast.tsx], absent
    from the sources; the spec calls its result the "function-stripped"
    expression.  Arrow functions of the model have expression bodies, so
    the body is returned; every other node is returned as it is. *)
Definition pickFunctionBody (node : Node) : Node :=
  match node with
  | ArrowFunctionExpression _ body => body
  | _ => node
  end.

Definition visit_option {S} (f : Node → S → Node * S) (o : option Node) (s : S)
    : option Node * S :=
  match o with
  | Some n => let '(n', s') := f n s in (Some n', s')
  | None => (None, s)
  end.

Definition visit_member {S} (f : Node → S → Node * S) (m : ObjectMember Node)
    (s : S) : ObjectMember Node * S :=
  match m with
  | ObjectProperty key value =>
      let '(key', s1) := f key s in
      let '(value', s2) := f value s1 in
      (ObjectProperty key' value', s2)
  | SpreadElement argument =>
      let '(argument', s1) := f argument s in
      (SpreadElement argument', s1)
  | ObjectMethod kind key params body =>
      let '(key', s1) := f key s in
      let '(body', s2) := f body s1 in
      (ObjectMethod kind key' params body', s2)
  end.

Definition visit_attribute {S} (f : Node → S → Node * S) (a : JSXAttr Node)
    (s : S) : JSXAttr Node * S :=
  match a with
  | JSXAttribute name value =>
      let '(value', s1) := visit_option f value s in
      (JSXAttribute name value', s1)
  | JSXSpreadAttribute argument =>
      let '(argument', s1) := f argument s in
      (JSXSpreadAttribute argument', s1)
  end.

Definition visit_pattern_property {S} (f : Node → S → Node * S)
    (p : PatternProperty Node) (s : S) : PatternProperty Node * S :=
  let '(d, s1) := visit_option f (pat_default p) s in
  (mkPatternProperty (pat_key p) (pat_local p) d, s1).

Definition visit_pattern {S} (f : Node → S → Node * S) (p : Pattern Node)
    (s : S) : Pattern Node * S :=
  match p with
  | PIdentifier name => (PIdentifier name, s)
  | PObject properties rest =>
      let '(properties', s1) :=
        map_acc (visit_pattern_property f) properties s in
      (PObject properties' rest, s1)
  end.

Section StyledVisitor.
(** [isPropValid] of [@emotion/is-prop-valid], an external library: whether
    a prop name is a valid HTML attribute. *)
Variable isPropValid : string → bool.

(** The [MemberExpression] reaction of [nestedArrowFunctionExpressionVisitor],
    run by a traversal in source order over [n] and everything below it.
    [propsToDestructure] is the array the visitor pushes to.  An access
    [props.x] with [x] not a valid attribute is replaced by the identifier
    [x]; the replacement and a valid access have nothing below them that the
    visitor reacts to. *)
Fixpoint nestedVisitor (n : Node) (propsToDestructure : list string)
    {struct n} : Node * list string :=
  match n with
  | MemberExpression object propertyAccessName =>
      match object with
      | Identifier name =>
          if decide (name = "props") then
            if isPropValid propertyAccessName then (n, propsToDestructure)
            else
              (Identifier propertyAccessName,
               if decide (propertyAccessName ∈ propsToDestructure)
               then propsToDestructure
               else propsToDestructure ++ [propertyAccessName])
          else (n, propsToDestructure)
      | _ =>
          let '(object', acc) := nestedVisitor object propsToDestructure in
          (MemberExpression object' propertyAccessName, acc)
      end
  | ArrowFunctionExpression params body =>
      let '(params', acc1) :=
        map_acc (visit_pattern nestedVisitor) params propsToDestructure in
      let '(body', acc2) := nestedVisitor body acc1 in
      (ArrowFunctionExpression params' body', acc2)
  | BinaryExpression operator lhs rhs =>
      let '(lhs', acc1) := nestedVisitor lhs propsToDestructure in
      let '(rhs', acc2) := nestedVisitor rhs acc1 in
      (BinaryExpression operator lhs' rhs', acc2)
  | ConditionalExpression test consequent alternate =>
      let '(test', acc1) := nestedVisitor test propsToDestructure in
      let '(consequent', acc2) := nestedVisitor consequent acc1 in
      let '(alternate', acc3) := nestedVisitor alternate acc2 in
      (ConditionalExpression test' consequent' alternate', acc3)
  | CallExpression callee arguments =>
      let '(callee', acc1) := nestedVisitor callee propsToDestructure in
      let '(arguments', acc2) := map_acc nestedVisitor arguments acc1 in
      (CallExpression callee' arguments', acc2)
  | TaggedTemplateExpression tag quasis expressions =>
      let '(tag', acc1) := nestedVisitor tag propsToDestructure in
      let '(expressions', acc2) := map_acc nestedVisitor expressions acc1 in
      (TaggedTemplateExpression tag' quasis expressions', acc2)
  | ObjectExpression properties =>
      let '(properties', acc1) :=
        map_acc (visit_member nestedVisitor) properties propsToDestructure in
      (ObjectExpression properties', acc1)
  | ArrayExpression elements =>
      let '(elements', acc1) :=
        map_acc (visit_option nestedVisitor) elements propsToDestructure in
      (ArrayExpression elements', acc1)
  | JSXElement name attributes children =>
      let '(attributes', acc1) :=
        map_acc (visit_attribute nestedVisitor) attributes propsToDestructure in
      let '(children', acc2) := map_acc nestedVisitor children acc1 in
      (JSXElement name attributes' children', acc2)
  | JSXExpressionContainer expression =>
      let '(expression', acc1) := nestedVisitor expression propsToDestructure in
      (JSXExpressionContainer expression', acc1)
  | Identifier _ | StringLiteral _ | NumericLiteral _
  | JSXEmptyExpression _ | JSXText _ => (n, propsToDestructure)
  end.

(** How far [path.stop()] reaches is the host's business, and the sources
    do not fix the release of the host.  The visit of the children that the
    parent of the stopped path has left is given up in every release.
    Above the parent, a release that reports the stop upwards gives up the
    rest of the traversal ([stopEndsTraversal = true]); an earlier one
    (7.10, for one) goes on with what follows the parent
    ([stopEndsTraversal = false]). *)
Variable stopEndsTraversal : bool.

(** The state of the traversal on the way out of a node whose children were
    visited. *)
Definition leave (st : list string * bool) : list string * bool :=
  (st.1, st.2 && stopEndsTraversal).

(** The visit of a child that is a node of its own in the host's tree
    though not in [Node], an object member or a JSX attribute: it is not
    visited after a stop and left like any other node. *)
Definition visitChild {A} (f : A → list string * bool → A * (list string * bool))
    (a : A) (st : list string * bool) : A * (list string * bool) :=
  if st.2 then (a, st) else let '(a', st') := f a st in (a', leave st').

(** The [ArrowFunctionExpression] reaction installed by
    [traverseStyledBinaryExpression]: the nested visitor runs below the
    arrow function, the arrow function is replaced by its body, and
    [path.stop()] stops the traversal.  The flag of the accumulator records
    that the traversal is stopped; a node met while it is set is not
    visited.  The attributes of a JSX element hang off its opening element;
    leaving that changes nothing once each attribute was left. *)
Fixpoint arrowVisitor (n : Node) (st : list string * bool) {struct n}
    : Node * (list string * bool) :=
  if st.2 then (n, st) else
  match n with
  | ArrowFunctionExpression params body =>
      let '(node', acc) := nestedVisitor n st.1 in
      (pickFunctionBody node', (acc, true))
  | MemberExpression object property =>
      let '(object', st1) := arrowVisitor object st in
      (MemberExpression object' property, leave st1)
  | BinaryExpression operator lhs rhs =>
      let '(lhs', st1) := arrowVisitor lhs st in
      let '(rhs', st2) := arrowVisitor rhs st1 in
      (BinaryExpression operator lhs' rhs', leave st2)
  | ConditionalExpression test consequent alternate =>
      let '(test', st1) := arrowVisitor test st in
      let '(consequent', st2) := arrowVisitor consequent st1 in
      let '(alternate', st3) := arrowVisitor alternate st2 in
      (ConditionalExpression test' consequent' alternate', leave st3)
  | CallExpression callee arguments =>
      let '(callee', st1) := arrowVisitor callee st in
      let '(arguments', st2) := map_acc arrowVisitor arguments st1 in
      (CallExpression callee' arguments', leave st2)
  | TaggedTemplateExpression tag quasis expressions =>
      let '(tag', st1) := arrowVisitor tag st in
      let '(expressions', st2) := map_acc arrowVisitor expressions st1 in
      (TaggedTemplateExpression tag' quasis expressions', leave st2)
  | ObjectExpression properties =>
      let '(properties', st1) :=
        map_acc (visitChild (visit_member arrowVisitor)) properties st in
      (ObjectExpression properties', leave st1)
  | ArrayExpression elements =>
      let '(elements', st1) :=
        map_acc (visit_option arrowVisitor) elements st in
      (ArrayExpression elements', leave st1)
  | JSXElement name attributes children =>
      let '(attributes', st1) :=
        map_acc (visitChild (visit_attribute arrowVisitor)) attributes st in
      let '(children', st2) := map_acc arrowVisitor children st1 in
      (JSXElement name attributes' children', leave st2)
  | JSXExpressionContainer expression =>
      let '(expression', st1) := arrowVisitor expression st in
      (JSXExpressionContainer expression', leave st1)
  | Identifier _ | StringLiteral _ | NumericLiteral _
  | JSXEmptyExpression _ | JSXText _ => (n, st)
  end.

(** [traverseStyledArrowFunctionExpression]: [traverse(node, nestedVisitor)]
    visits what is below the arrow function, then the body is picked. *)
Definition traverseStyledArrowFunctionExpression (node : Node)
    (propsToDestructure : list string) : Node * list string :=
  let '(node', acc) := nestedVisitor node propsToDestructure in
  (pickFunctionBody node', acc).

(** [traverseStyledBinaryExpression]: the traversal starts below the binary
    expression, at its two operands; a stop at the left operand itself
    gives up the right one. *)
Definition traverseStyledBinaryExpression (node : Node)
    (propsToDestructure : list string) : Node * list string :=
  match node with
  | BinaryExpression operator lhs rhs =>
      let '(lhs', st1) := arrowVisitor lhs (propsToDestructure, false) in
      let '(rhs', st2) := arrowVisitor rhs st1 in
      (BinaryExpression operator lhs' rhs', st2.1)
  | _ => (node, propsToDestructure)
  end.

(** The [transform] callback that [styledTemplate] hands to
    [styledStyleProp]. *)
Definition styledTransform (node : Node) (propsToDestructure : list string)
    : Node * list string :=
  match node with
  | ArrowFunctionExpression _ _ =>
      traverseStyledArrowFunctionExpression node propsToDestructure
  | BinaryExpression _ _ _ =>
      traverseStyledBinaryExpression node propsToDestructure
  | _ => (node, propsToDestructure)
  end.
End StyledVisitor.

Arguments leave : simpl never.

(** [StyledTemplateOpts]. *)
Record StyledTemplateOpts := mkStyledTemplateOpts {
  opts_classNames : list string;
  opts_tag : Tag;
  opts_variables : list CssVariable;
  opts_sheets : list string
}.

(** Result of [transformCss]. *)
Record TransformCssResult := mkTransformCssResult {
  css_sheets : list string;
  css_classNames : list string
}.

Definition jsxExpressionAttribute (name : string) (expression : Node)
    : JSXAttr Node :=
  JSXAttribute name (Some (JSXExpressionContainer expression)).

(** [ax([...])] for an array without holes. *)
Definition axCall (values : list Node) : Node :=
  CallExpression (Identifier "ax") [ArrayExpression (Some <$> values)].

(** The elements of the array in [ax([CLASSES..., props.className])] of the
    styled template.  The text has a comma in front of [props.className]
    whether or not a class name stands before it, so that without class
    names the array starts with a hole. *)
Definition styledClassNames (classNames : list string) : list (option Node) :=
  match classNames with
  | [] => [None]
  | _ :: _ => (λ className, Some (StringLiteral className)) <$> classNames
  end
  ++ [Some (MemberExpression (Identifier "props") "className")].

(** The names that the parameters of the styled template bind at every call
    site: [C], [style], the rest [props], and [ref]. *)
Definition templateBindings : list string := ["C"; "style"; "props"; "ref"].

(** The object pattern [{ as: C = TAG, style, DESTRUCTURED..., ...props }] of
    the emitted component. *)
Definition styledParameter (tag : Node) (propsToDestructure : list string)
    : Pattern Node :=
  PObject
    ([mkPatternProperty "as" "C" (Some tag);
      mkPatternProperty "style" "style" None]
     ++ map (λ prop, mkPatternProperty prop prop None) propsToDestructure)
    (Some "props").

(** [getPropValue]: the actual value of a JSX attribute value. *)
Definition getPropValue (node : Node) : Result Node :=
  let value :=
    match node with
    | JSXExpressionContainer expression => expression
    | _ => node
    end in
  if isJSXEmptyExpression value
  then Throw (Error "Empty expression not supported.")
  else Ok value.

(** [importSpecifier(name, localName?)]. *)
Definition importSpecifier (name : string) (localName : option string)
    : ImportSpecifierNode :=
  ImportSpecifier name
    (match localName with
     | Some l => if decide (l = "") then name else l
     | None => name
     end).

(** [joinExpressions]: [left + ' ' + right]; [spacer] is [None] when the
    caller passes a falsy spacer. *)
Definition joinExpressions (lhs rhs : Node) (spacer : option Node) : Node :=
  BinaryExpression "+" lhs
    (match spacer with
     | Some sp => BinaryExpression "+" sp rhs
     | None => rhs
     end).

(** [conditionallyJoinExpressions]: [left + (right ? ' ' + right : '')]. *)
Definition conditionallyJoinExpressions (lhs rhs : Node) : Node :=
  BinaryExpression "+" lhs
    (ConditionalExpression rhs
       (BinaryExpression "+" (StringLiteral " ") rhs)
       (StringLiteral "")).

(** First attribute [prop] with [t.isJSXAttribute(prop) && prop.name.name
    === name], with its index. *)
Fixpoint findAttribute (name : string) (attributes : list (JSXAttr Node))
    : option (nat * option Node) :=
  match attributes with
  | [] => None
  | a :: rest =>
      let next := prod_map S id <$> findAttribute name rest in
      match a with
      | JSXAttribute n value =>
          if decide (n = name) then Some (0, value) else next
      | JSXSpreadAttribute _ => next
      end
  end.

(** The [forEach] of [buildCompiledComponent] over the properties of the
    preexisting style object: every property that is not an object method
    is spliced in at the index it has in the original object. *)
Fixpoint mergeStyleProperties (index : nat)
    (properties : list (ObjectMember Node))
    (dynamicStyleProperties : list (ObjectMember Node))
    : list (ObjectMember Node) :=
  match properties with
  | [] => dynamicStyleProperties
  | prop :: rest =>
      mergeStyleProperties (S index) rest
        (if isObjectMethod prop then dynamicStyleProperties
         else splice_insert index prop dynamicStyleProperties)
  end.

Definition lift {Cache A} (r : Result A) : M Cache A :=
  λ w, match r with
       | Ok a => Ok (a, w)
       | Throw e => Throw e
       | OutOfFuel => OutOfFuel
       end.

(** The block of [buildCompiledComponent] that merges the class names: a
    [className] attribute with a value gets the new class names put in
    front of its expression, otherwise a new attribute is pushed. *)
Definition classNameAttributes (classNames : list string)
    (attributes : list (JSXAttr Node)) : Result (list (JSXAttr Node)) :=
  match findAttribute "className" attributes with
  | Some (index, Some value) =>
      match getPropValue value with
      | Ok classNameExpression =>
          Ok (<[index :=
                 jsxExpressionAttribute "className"
                   (axCall (map StringLiteral classNames
                            ++ [classNameExpression]))]> attributes)
      | Throw e => Throw e
      | OutOfFuel => OutOfFuel
      end
  | _ =>
      Ok (attributes
          ++ [jsxExpressionAttribute "className"
                (axCall (map StringLiteral classNames))])
  end.

(** The properties of the new style object, given the value of the
    preexisting [style] attribute. *)
Definition mergedStyleProperties (value : option Node)
    (dynamicStyleProperties : list (ObjectMember Node))
    : list (ObjectMember Node) :=
  match value with
  | Some (JSXExpressionContainer expression) =>
      match expression with
      | JSXEmptyExpression _ => dynamicStyleProperties
      | ObjectExpression properties =>
          mergeStyleProperties 0 properties dynamicStyleProperties
      | _ => splice_insert 0 (SpreadElement expression) dynamicStyleProperties
      end
  | _ => dynamicStyleProperties
  end.

(** The block of [buildCompiledComponent] guarded by
    [cssOutput.variables.length]. *)
Definition styleAttributes (variables : list CssVariable)
    (attributes : list (JSXAttr Node)) : list (JSXAttr Node) :=
  match variables with
  | [] => attributes
  | _ :: _ =>
      let dynamicStyleProperties :=
        (buildCssVariablesProp variables identityTransform tt).1 in
      let '(attributes', properties) :=
        match findAttribute "style" attributes with
        | Some (stylePropIndex, value) =>
            (delete stylePropIndex attributes,
             mergedStyleProperties value dynamicStyleProperties)
        | None => (attributes, dynamicStyleProperties)
        end in
      attributes'
      ++ [jsxExpressionAttribute "style" (ObjectExpression properties)]
  end.

(** The text spliced into the template for [meta.state.opts.nonce], parsed
    back: an attribute when the option is set and not the empty string. *)
Definition nonceAttributeOf (nonce : option string) : list (JSXAttr Node) :=
  match nonce with
  | Some n =>
      if decide (n = "") then []
      else [jsxExpressionAttribute "nonce" (Identifier n)]
  | None => []
  end.

Section Emitter.
Context {Cache : Type}.
Variable isPropValid : string → bool.
Variable stopEndsTraversal : bool.
(** Whether the host's parser refuses a word as the name of a binding in
    the text of a template, which it reads as the code of a module: [new],
    [default], [class] and the other reserved words. *)
Variable isReservedWord : string → bool.
(** [transformCss] of the repository's [@compiled/css] package, which is not
    among the sources at hand; the emitter only passes its result on. *)
Variable transformCss : string → TransformCssResult.

(** [nonce={IDENTIFIER}] when the option is a non-empty string. *)
Definition nonceAttribute : M Cache (list (JSXAttr Node)) :=
  let* st := get_state in
  ret (nonceAttributeOf (nonce st)).

(** [<CS NONCE?>{[HOISTED_SHEETS...]}</CS>]. *)
Definition csElement (nonceAttr : list (JSXAttr Node)) (ids : list string)
    : Node :=
  JSXElement (Identifier "CS") nonceAttr
    [JSXExpressionContainer
       (ArrayExpression ((λ id, Some (Identifier id)) <$> ids))].

(** Whether the text of the styled template parses with [names] spliced in
    as the destructured properties: each of them has to be a word that can
    be bound, and the parameters may bind no name twice. *)
Definition parameterParses (names : list string) : bool :=
  forallb (λ name, negb (isReservedWord name)) names
  && bool_decide (NoDup (templateBindings ++ names)).

(** [styledTemplate]: the generated component of a styled call site.  The
    text of the template is parsed when the template is filled in, after
    the sheets were hoisted; the tag, the nonce and the class names are
    spliced into the text as the rest of the plugin hands them over, an
    identifier or a quoted name, an identifier, and the hashes of
    [transformCss].  The result is the expression of the statement that the
    template gives; the layout text between the JSX elements is left
    out. *)
Definition styledTemplate (opts : StyledTemplateOpts) : M Cache Node :=
  let* nonceAttr := nonceAttribute in
  let '(styleProp, propsToDestructure) :=
    match opts_variables opts with
    | [] => (Identifier "style", [])
    | _ :: _ =>
        styledStyleProp (opts_variables opts)
          (styledTransform isPropValid stopEndsTraversal) []
    end in
  let* ids := mapM hoistSheet (opts_sheets opts) in
  if parameterParses propsToDestructure then
    ret (CallExpression (MemberExpression (Identifier "React") "forwardRef")
           [ArrowFunctionExpression
              [styledParameter (buildComponentTag (opts_tag opts))
                 propsToDestructure;
               PIdentifier "ref"]
              (JSXElement (Identifier "CC") []
                 [csElement nonceAttr ids;
                  JSXElement (Identifier "C")
                    [JSXSpreadAttribute (Identifier "props");
                     jsxExpressionAttribute "style" styleProp;
                     jsxExpressionAttribute "ref" (Identifier "ref");
                     jsxExpressionAttribute "className"
                       (CallExpression (Identifier "ax")
                          [ArrayExpression
                             (styledClassNames (opts_classNames opts))])]
                    []])])
  else throw SyntaxError.

(** [compiledTemplate]: [<CC><CS>{sheets}</CS>{node}</CC>]. *)
Definition compiledTemplate (node : Node) (sheets : list string)
    : M Cache Node :=
  let* nonceAttr := nonceAttribute in
  let* ids := mapM hoistSheet sheets in
  ret (JSXElement (Identifier "CC") []
         [csElement nonceAttr ids; JSXExpressionContainer node]).

Definition buildStyledComponent (tag : Tag) (cssOutput : CSSOutput)
    : M Cache Node :=
  let r := transformCss (css cssOutput) in
  styledTemplate
    (mkStyledTemplateOpts (css_classNames r) tag (variables cssOutput)
       (css_sheets r)).

(** [buildCompiledComponent]; [node] is a JSX element, anything else has no
    [openingElement] to read the attributes from. *)
Definition buildCompiledComponent (node : Node) (cssOutput : CSSOutput)
    : M Cache Node :=
  match node with
  | JSXElement name attributes children =>
      let r := transformCss (css cssOutput) in
      let* attributes1 :=
        lift (classNameAttributes (css_classNames r) attributes) in
      let attributes2 := styleAttributes (variables cssOutput) attributes1 in
      compiledTemplate (JSXElement name attributes2 children) (css_sheets r)
  | _ =>
      throw (TypeError "Cannot read property 'attributes' of undefined")
  end.
End Emitter.

(** ** The host's traversal

    Babel's [traverse] is not part of the repository; it is modelled as far
    as the plugin relies on it: nodes are entered in source order, a node
    that a visitor replaced is queued again and traversed in place of the
    old one, and otherwise the traversal goes on below the node. *)

Section Traversal.
Context {Cache : Type}.

Definition optionM (f : Node → M Cache Node) (o : option Node)
    : M Cache (option Node) :=
  match o with
  | Some n => let* n' := f n in ret (Some n')
  | None => ret None
  end.

Definition memberM (f : Node → M Cache Node) (m : ObjectMember Node)
    : M Cache (ObjectMember Node) :=
  match m with
  | ObjectProperty key value =>
      let* key' := f key in
      let* value' := f value in
      ret (ObjectProperty key' value')
  | SpreadElement argument =>
      let* argument' := f argument in
      ret (SpreadElement argument')
  | ObjectMethod kind key params body =>
      let* key' := f key in
      let* body' := f body in
      ret (ObjectMethod kind key' params body')
  end.

Definition attributeM (f : Node → M Cache Node) (a : JSXAttr Node)
    : M Cache (JSXAttr Node) :=
  match a with
  | JSXAttribute name value =>
      let* value' := optionM f value in
      ret (JSXAttribute name value')
  | JSXSpreadAttribute argument =>
      let* argument' := f argument in
      ret (JSXSpreadAttribute argument')
  end.

Definition patternM (f : Node → M Cache Node) (p : Pattern Node)
    : M Cache (Pattern Node) :=
  match p with
  | PIdentifier name => ret (PIdentifier name)
  | PObject properties rest =>
      let* properties' :=
        mapM (λ q, let* d := optionM f (pat_default q) in
                   ret (mkPatternProperty (pat_key q) (pat_local q) d))
          properties in
      ret (PObject properties' rest)
  end.

(** The nodes directly below [n], visited with [f] in source order. *)
Definition traverseChildren (f : Node → M Cache Node) (n : Node)
    : M Cache Node :=
  match n with
  | MemberExpression object property =>
      let* object' := f object in
      ret (MemberExpression object' property)
  | ArrowFunctionExpression params body =>
      let* params' := mapM (patternM f) params in
      let* body' := f body in
      ret (ArrowFunctionExpression params' body')
  | BinaryExpression operator lhs rhs =>
      let* lhs' := f lhs in
      let* rhs' := f rhs in
      ret (BinaryExpression operator lhs' rhs')
  | ConditionalExpression test consequent alternate =>
      let* test' := f test in
      let* consequent' := f consequent in
      let* alternate' := f alternate in
      ret (ConditionalExpression test' consequent' alternate')
  | CallExpression callee arguments =>
      let* callee' := f callee in
      let* arguments' := mapM f arguments in
      ret (CallExpression callee' arguments')
  | TaggedTemplateExpression tag quasis expressions =>
      let* tag' := f tag in
      let* expressions' := mapM f expressions in
      ret (TaggedTemplateExpression tag' quasis expressions')
  | ObjectExpression properties =>
      let* properties' := mapM (memberM f) properties in
      ret (ObjectExpression properties')
  | ArrayExpression elements =>
      let* elements' := mapM (optionM f) elements in
      ret (ArrayExpression elements')
  | JSXElement name attributes children =>
      let* attributes' := mapM (attributeM f) attributes in
      let* children' := mapM f children in
      ret (JSXElement name attributes' children')
  | JSXExpressionContainer expression =>
      let* expression' := f expression in
      ret (JSXExpressionContainer expression')
  | Identifier _ | StringLiteral _ | NumericLiteral _
  | JSXEmptyExpression _ | JSXText _ => ret n
  end.

(** [enter n] is the reaction of the plugin to [n]: [Some n'] when the node
    was replaced by [n'], [None] when it was left in place. *)
Fixpoint traverse (enter : Node → M Cache (option Node)) (fuel : nat)
    (n : Node) {struct fuel} : M Cache Node :=
  match fuel with
  | 0 => λ _, OutOfFuel
  | S fuel' =>
      let* replaced := enter n in
      match replaced with
      | Some n' => traverse enter fuel' n'
      | None => traverseChildren (traverse enter fuel') n
      end
  end.
End Traversal.

(** ** The plugin entry point ([index.tsx]) *)

Section Plugin.
Context {Cache : Type}.
(** [cache.initialize(opts)] of [utils/cache.tsx], absent from the sources:
    the cache after initialisation with the plugin options. *)
Variable initialize : option string → Cache → Cache.
(** [visitStyledPath] and [visitCssPropPath] of [styled/] and [css-prop/],
    absent from the sources: what they do to a call site, [None] when they
    return without replacing the node. *)
Variable visitStyledPath : Node → M Cache (option Node).
Variable visitCssPropPath : Node → M Cache (option Node).

(** [pre()]: [this] is the plugin pass of the file, [c] the module-level
    [cache] object shared by all files of the process. *)
Definition pre (this : State Cache) (c : Cache) : State Cache * Cache :=
  let c' := initialize (nonce this) c in
  (mkState (compiledImports this) ∅ (nonce this) (Some c'), c').

(** [template.ast(`import * as React from 'react'`)]. *)
Definition reactImport : Statement :=
  ImportDeclaration [ImportNamespaceSpecifier "React"] "react".

(** [Program.exit]. *)
Definition Program_exit : M Cache unit :=
  let* st := get_state in
  let* p := get_program in
  match compiledImports st with
  | Some _ =>
      if decide ("React" ∈ bindings p) then ret tt
      else put_program
             (mkProgram (reactImport :: body p) (bindings p) (taken p))
  | None => ret tt
  end.

(** The callback of [specifiers.filter]: whether the specifier is kept, and
    the [compiledImports] record after the callback. *)
Definition keepSpecifier (specifier : ImportSpecifierNode)
    (ci : CompiledImports) : bool * CompiledImports :=
  match specifier with
  | ImportSpecifier imported local =>
      if decide (imported = "styled")
      then (false, mkCompiledImports (Some local))
      else (true, ci)
  | _ => (true, ci)
  end.

Fixpoint filterSpecifiers (specifiers : list ImportSpecifierNode)
    (ci : CompiledImports) : list ImportSpecifierNode * CompiledImports :=
  match specifiers with
  | [] => ([], ci)
  | specifier :: rest =>
      let '(keep, ci1) := keepSpecifier specifier ci in
      let '(kept, ci2) := filterSpecifiers rest ci1 in
      (if keep then specifier :: kept else kept, ci2)
  end.

(** The [ImportDeclaration] visitor; the result is the node after the
    visit. *)
Definition visit_ImportDeclaration (specifiers : list ImportSpecifierNode)
    (source : string) : M Cache Statement :=
  if decide (source = "@compiled/core") then
    let* st := get_state in
    let '(kept, ci) := filterSpecifiers specifiers (mkCompiledImports None) in
    do* put_state (mkState (Some ci) (sheets st) (nonce st) (cache st)) in
    ret (ImportDeclaration
           (kept ++ [importSpecifier "ax" None; importSpecifier "CC" None;
                     importSpecifier "CS" None])
           source)
  else ret (ImportDeclaration specifiers source).

(** The [TaggedTemplateExpression] visitor. *)
Definition visit_TaggedTemplateExpression (node : Node)
    : M Cache (option Node) :=
  let* st := get_state in
  match compiledImports st with
  | Some ci =>
      match styled ci with
      | Some local =>
          if decide (local = "") then ret None else visitStyledPath node
      | None => ret None
      end
  | None => ret None
  end.

(** The [CallExpression] visitor. *)
Definition visit_CallExpression (node : Node) : M Cache (option Node) :=
  let* st := get_state in
  match compiledImports st with
  | Some _ => visitStyledPath node
  | None => ret None
  end.

(** The [JSXOpeningElement] visitor; [node] is the element of the opening
    element, which is what the handler replaces. *)
Definition visit_JSXOpeningElement (node : Node) : M Cache (option Node) :=
  let* st := get_state in
  match compiledImports st with
  | Some _ => visitCssPropPath node
  | None => ret None
  end.

(** The reaction of the [visitor] object to an expression node. *)
Definition visitor (node : Node) : M Cache (option Node) :=
  match node with
  | TaggedTemplateExpression _ _ _ => visit_TaggedTemplateExpression node
  | CallExpression _ _ => visit_CallExpression node
  | JSXElement _ _ _ => visit_JSXOpeningElement node
  | _ => ret None
  end.

Definition visitStatement (fuel : nat) (s : Statement) : M Cache Statement :=
  match s with
  | ImportDeclaration specifiers source =>
      visit_ImportDeclaration specifiers source
  | VariableDeclaration kind id init =>
      let* init' := traverse visitor fuel init in
      ret (VariableDeclaration kind id init')
  | ExpressionStatement expression =>
      let* expression' := traverse visitor fuel expression in
      ret (ExpressionStatement expression')
  end.

(** The statements of the program body are visited in order.  [cur] is the
    index of the statement under visit; statements that the visit inserted
    (hoisted constants, which go in front of it) move it to the right. *)
Fixpoint traverseBody (fuel remaining cur : nat) {struct remaining}
    : M Cache unit :=
  match remaining with
  | 0 => ret tt
  | S remaining' =>
      let* p := get_program in
      match body p !! cur with
      | None => ret tt
      | Some s =>
          let* s' := visitStatement fuel s in
          let* p' := get_program in
          let cur' := cur + (length (body p') - length (body p)) in
          do* put_program
                (mkProgram (<[cur' := s']> (body p')) (bindings p') (taken p')) in
          traverseBody fuel remaining' (S cur')
      end
  end.

(** One run of the plugin over a file: [this] is the plugin pass the host
    created for the file, [c] the module-level cache.  The result is the
    program after the pass and the cache left behind: the module-level
    object is the one in [state.cache], so it is left as the handlers left
    that. *)
Definition transform (fuel : nat) (this : State Cache) (c : Cache)
    (file : Program) : Result (Program * Cache) :=
  let '(st, c') := pre this c in
  match
    (do* traverseBody fuel (length (body file)) 0 in Program_exit)
      (mkWorld st file)
  with
  | Ok (_, w) => Ok (program w, default c' (cache (state w)))
  | Throw e => Throw e
  | OutOfFuel => OutOfFuel
  end.
End Plugin.

(** ** Vocabulary of the statements *)

(** The local name of a named import of [styled]. *)
Definition styledLocal (specifier : ImportSpecifierNode) : option string :=
  match specifier with
  | ImportSpecifier imported local =>
      if decide (imported = "styled") then Some local else None
  | _ => None
  end.

(** The properties of an object expression that are not object methods. *)
Definition nonMethods (properties : list (ObjectMember Node))
    : list (ObjectMember Node) :=
  filter (λ p, isObjectMethod p = false) properties.

(** The declaration that the hoister writes for a sheet. *)
Definition sheetConstant (entry : string * string) : Statement :=
  VariableDeclaration "const" entry.2 (StringLiteral entry.1).

(** A property of nodes lifted to the nodes held by an optional node, an
    object member, a JSX attribute and a pattern. *)
Definition option_Forall (P : Node → Prop) (o : option Node) : Prop :=
  match o with Some n => P n | None => True end.

Definition member_Forall (P : Node → Prop) (m : ObjectMember Node) : Prop :=
  match m with
  | ObjectProperty key value => P key ∧ P value
  | SpreadElement argument => P argument
  | ObjectMethod _ key _ body => P key ∧ P body
  end.

Definition attribute_Forall (P : Node → Prop) (a : JSXAttr Node) : Prop :=
  match a with
  | JSXAttribute _ value => option_Forall P value
  | JSXSpreadAttribute argument => P argument
  end.

Definition pattern_Forall (P : Node → Prop) (p : Pattern Node) : Prop :=
  match p with
  | PIdentifier _ => True
  | PObject properties _ =>
      Forall (λ q, option_Forall P (pat_default q)) properties
  end.

Definition collect_option (f : Node → list string) (o : option Node)
    : list string :=
  match o with Some n => f n | None => [] end.

Definition collect_member (f : Node → list string) (m : ObjectMember Node)
    : list string :=
  match m with
  | ObjectProperty key value => f key ++ f value
  | SpreadElement argument => f argument
  | ObjectMethod _ key _ body => f key ++ f body
  end.

Definition collect_attribute (f : Node → list string) (a : JSXAttr Node)
    : list string :=
  match a with
  | JSXAttribute _ value => collect_option f value
  | JSXSpreadAttribute argument => f argument
  end.

Definition collect_pattern (f : Node → list string) (p : Pattern Node)
    : list string :=
  match p with
  | PIdentifier _ => []
  | PObject properties _ =>
      flat_map (λ q, collect_option f (pat_default q)) properties
  end.

(** The names [x] of the member accesses [props.x] in a node, in source
    order. *)
Fixpoint propsAccesses (n : Node) : list string :=
  match n with
  | MemberExpression object property =>
      match object with
      | Identifier name => if decide (name = "props") then [property] else []
      | _ => propsAccesses object
      end
  | ArrowFunctionExpression params body =>
      flat_map (collect_pattern propsAccesses) params ++ propsAccesses body
  | BinaryExpression _ lhs rhs => propsAccesses lhs ++ propsAccesses rhs
  | ConditionalExpression test consequent alternate =>
      propsAccesses test ++ propsAccesses consequent ++ propsAccesses alternate
  | CallExpression callee arguments =>
      propsAccesses callee ++ flat_map propsAccesses arguments
  | TaggedTemplateExpression tag _ expressions =>
      propsAccesses tag ++ flat_map propsAccesses expressions
  | ObjectExpression properties =>
      flat_map (collect_member propsAccesses) properties
  | ArrayExpression elements =>
      flat_map (collect_option propsAccesses) elements
  | JSXElement _ attributes children =>
      flat_map (collect_attribute propsAccesses) attributes
      ++ flat_map propsAccesses children
  | JSXExpressionContainer expression => propsAccesses expression
  | Identifier _ | StringLiteral _ | NumericLiteral _
  | JSXEmptyExpression _ | JSXText _ => []
  end.





Definition orElse {A} (x y : option A) : option A :=
  match x with Some _ => x | None => y end.

(** The first answer that [f] gives on a list, a member or an attribute. *)
Definition firstOf {A B} (f : A → option B) (l : list A) : option B :=
  foldr (λ a r, orElse (f a) r) None l.

Definition first_option {B} (f : Node → option B) (o : option Node)
    : option B :=
  match o with Some n => f n | None => None end.

Definition first_member {B} (f : Node → option B) (m : ObjectMember Node)
    : option B :=
  match m with
  | ObjectProperty key value => orElse (f key) (f value)
  | SpreadElement argument => f argument
  | ObjectMethod _ key _ body => orElse (f key) (f body)
  end.

Definition first_attribute {B} (f : Node → option B) (a : JSXAttr Node)
    : option B :=
  match a with
  | JSXAttribute _ (Some value) => f value
  | JSXAttribute _ None => None
  | JSXSpreadAttribute argument => f argument
  end.

(** The first arrow function that a traversal in source order meets at or
    below a node, if there is one. *)
Fixpoint firstArrow (n : Node) : option Node :=
  match n with
  | ArrowFunctionExpression _ _ => Some n
  | MemberExpression object _ => firstArrow object
  | BinaryExpression _ lhs rhs => orElse (firstArrow lhs) (firstArrow rhs)
  | ConditionalExpression test consequent alternate =>
      orElse (firstArrow test)
        (orElse (firstArrow consequent) (firstArrow alternate))
  | CallExpression callee arguments =>
      orElse (firstArrow callee) (firstOf firstArrow arguments)
  | TaggedTemplateExpression tag _ expressions =>
      orElse (firstArrow tag) (firstOf firstArrow expressions)
  | ObjectExpression properties =>
      firstOf (first_member firstArrow) properties
  | ArrayExpression elements => firstOf (first_option firstArrow) elements
  | JSXElement _ attributes children =>
      orElse (firstOf (first_attribute firstArrow) attributes)
        (firstOf firstArrow children)
  | JSXExpressionContainer expression => firstArrow expression
  | Identifier _ | StringLiteral _ | NumericLiteral _
  | JSXEmptyExpression _ | JSXText _ => None
  end.






(** Whether a statement is an import of the runtime library. *)
Definition importsCompiled (s : Statement) : bool :=
  match s with
  | ImportDeclaration _ source => bool_decide (source = "@compiled/core")
  | _ => false
  end.

(** Fuel [d] is enough to traverse [n] when the module is not opted in. *)
Definition Untouched {Cache : Type} (enter : Node → M Cache (option Node))
    (d : nat) (n : Node) : Prop :=
  ∀ fuel (w : World Cache),
    d ≤ fuel → compiledImports (state w) = None →
    traverse enter fuel n w = Ok (n, w).

(** The state of a module after some sheets were hoisted into the body
    [b0], whose first statement that is not an import has index [k]:
    [hoisted] lists the sheets with their identifiers, latest first. *)
Record Hoisted {Cache : Type} (k : nat) (p0 : Program)
    (hoisted : list (string * string)) (w : World Cache) : Prop := {
  hoisted_first : firstNonImport (body p0) = Some k;
  hoisted_body :
    body (program w)
    = take k (body p0) ++ (sheetConstant <$> hoisted) ++ drop k (body p0);
  hoisted_sheets : sheets (state w) = list_to_map hoisted;
  hoisted_sheet_once : NoDup hoisted.*1;
  hoisted_id_once : NoDup hoisted.*2;
  hoisted_bindings : bindings (program w) = bindings p0;
  hoisted_taken : taken (program w) = list_to_set hoisted.*2 ∪ taken p0;
  hoisted_fresh : ∀ id, id ∈ hoisted.*2 → id ∉ bindings p0 ∪ taken p0
}.

(** ** Sample inputs *)

Definition sampleTransformCss (css : string) : TransformCssResult :=
  mkTransformCssResult ["._1x{" +:+ css +:+ "}"] ["_1x"].

(** A module that imports the runtime and has one more statement. *)
Definition sampleWorld : World unit :=
  mkWorld (mkState (Some (mkCompiledImports None)) ∅ None None)
    (mkProgram
       [ImportDeclaration [] "@compiled/core";
        ExpressionStatement (Identifier "App")]
       {["App"]} ∅).

Definition sampleOutput : CSSOutput :=
  mkCSSOutput "color:var(--color)" [mkVar "--color" (Identifier "color")].

(** [{ margin: 0 }]. *)
Definition sampleStyle : list (ObjectMember Node) :=
  [ObjectProperty (Identifier "margin") (NumericLiteral 0)].

(** [{ get top() { ... }, margin: 0 }]. *)
Definition methodStyle : list (ObjectMember Node) :=
  [ObjectMethod "get" (Identifier "top") [] (NumericLiteral 0);
   ObjectProperty (Identifier "margin") (NumericLiteral 0)].

Definition styledDiv (style : list (ObjectMember Node)) : Node :=
  JSXElement (Identifier "div")
    [jsxExpressionAttribute "style" (ObjectExpression style)] [].

(** [<div className={} />]: the value of [className] is an empty JSX
    expression at line 3, column 15. *)
Definition emptyClassName : Node :=
  JSXElement (Identifier "div")
    [JSXAttribute "className"
       (Some (JSXExpressionContainer (JSXEmptyExpression (mkLoc 3 15))))]
    [].

(** A stand-in for [isPropValid] that agrees with the library on the names
    used below: [className], [href], [style], [id] and [size] are
    attributes, [fonty] and [sizey] are not. *)
Definition sampleIsPropValid (prop : string) : bool :=
  bool_decide (prop ∈ ["className"; "href"; "style"; "id"; "size"]).



(** A handler that replaces every node it is given. *)
Definition replaceHandler (n : Node) : M unit (option Node) :=
  ret (Some (Identifier "replaced")).

(** A module without the enabling import: [import React from 'react';
    <div css={{}}>hello</div>]. *)
Definition plainFile : Program :=
  mkProgram
    [ImportDeclaration [ImportDefaultSpecifier "React"] "react";
     ExpressionStatement
       (JSXElement (Identifier "div")
          [jsxExpressionAttribute "css" (ObjectExpression [])]
          [JSXText "hello"])]
    {["React"]} ∅.

(** The plugin pass as the host creates it for a file. *)
Definition freshPass : State unit := mkState None ∅ None None.




(** ** More vocabulary *)

(** Whether an attribute is a [className] or [style] attribute. *)
Definition isClassNameOrStyle (a : JSXAttr Node) : bool :=
  match a with
  | JSXAttribute name _ => bool_decide (name = "className" ∨ name = "style")
  | JSXSpreadAttribute _ => false
  end.

(** The attributes of an element other than [className] and [style]. *)
Definition otherAttributes (attributes : list (JSXAttr Node))
    : list (JSXAttr Node) :=
  filter (λ a, isClassNameOrStyle a = false) attributes.

(** The CSS-variable assignments of a css-prop call site: one property per
    variable kept, keyed by its name and valued by its expression. *)
Definition variableAssignments (variables : list CssVariable)
    : list (ObjectMember Node) :=
  map (λ v, ObjectProperty (StringLiteral (var_name v)) (var_expression v))
    (unique variables var_name).

(** What the nested visitor does to its array at an access [props.x]: the
    name is pushed unless it is a valid attribute or already there. *)
Definition pushName (isPropValid : string → bool) (acc : list string)
    (x : string) : list string :=
  if isPropValid x then acc
  else if decide (x ∈ acc) then acc else acc ++ [x].

Definition pushAll (isPropValid : string → bool) (acc accessed : list string)
    : list string :=
  foldl (pushName isPropValid) acc accessed.

(** [f] leaves the array as pushing the names of [F a] in order does. *)
Definition Pushes {A B : Type} (isPropValid : string → bool)
    (f : A → list string → B * list string) (F : A → list string) (a : A)
    : Prop :=
  ∀ acc, (f a acc).2 = pushAll isPropValid acc (F a).

(** [f] returns [a] and the accumulator as they are. *)
Definition Keeps {A S : Type} (f : A → S → A * S) (a : A) : Prop :=
  ∀ s, f a s = (a, s).

(** The values of the expressions that the join helpers build, as far as
    class names go: a string or [undefined]. *)
Inductive JsValue :=
  | VUndefined
  | VString (s : string).

Definition toString (v : JsValue) : string :=
  match v with VUndefined => "undefined" | VString s => s end.

(** JavaScript's truthiness: [undefined] and the empty string are falsy. *)
Definition truthy (v : JsValue) : bool :=
  match v with
  | VUndefined => false
  | VString s => if decide (s = "") then false else true
  end.

(** Evaluation of the string fragment of the emitted expressions in an
    environment for the identifiers: literals, identifiers, [+] with at
    least one string operand (the other operand is converted to a string)
    and the conditional.  Anything else is outside the fragment. *)
Fixpoint evalString (env : string → JsValue) (n : Node) : option JsValue :=
  match n with
  | StringLiteral s => Some (VString s)
  | Identifier x => Some (env x)
  | BinaryExpression operator lhs rhs =>
      if decide (operator = "+") then
        match evalString env lhs, evalString env rhs with
        | Some VUndefined, Some VUndefined => None
        | Some a, Some b => Some (VString (toString a +:+ toString b))
        | _, _ => None
        end
      else None
  | ConditionalExpression test consequent alternate =>
      match evalString env test with
      | Some v =>
          if truthy v then evalString env consequent
          else evalString env alternate
      | None => None
      end
  | _ => None
  end.

(** ** More sample inputs *)

(** A module whose body has nothing but imports. *)
Definition importsOnlyWorld : World unit :=
  mkWorld (mkState (Some (mkCompiledImports None)) ∅ None None)
    (mkProgram
       [ImportDeclaration [] "@compiled/core";
        ImportDeclaration [ImportDefaultSpecifier "React"] "react"]
       {["React"]} ∅).

(** [<div id="a" {...rest} style={base} className="b" title="t" />]. *)
Definition busyDiv : Node :=
  JSXElement (Identifier "div")
    [JSXAttribute "id" (Some (StringLiteral "a"));
     JSXSpreadAttribute (Identifier "rest");
     jsxExpressionAttribute "style" (Identifier "base");
     JSXAttribute "className" (Some (StringLiteral "b"));
     JSXAttribute "title" (Some (StringLiteral "t"))]
    [JSXText "hello"].

(** [<div css={{}}>hello</div>; import { styled } from '@compiled/core';
    import React from 'react']: the call site stands before the import of
    the runtime. *)
Definition lateImportFile : Program :=
  mkProgram
    [ExpressionStatement
       (JSXElement (Identifier "div")
          [jsxExpressionAttribute "css" (ObjectExpression [])]
          [JSXText "hello"]);
     ImportDeclaration [ImportSpecifier "styled" "styled"] "@compiled/core";
     ImportDeclaration [ImportDefaultSpecifier "React"] "react"]
    {["React"]} ∅.

(** * Properties *)

(** ** Generated identifiers are fresh *)

Lemma pretty_N_go_nonempty (x : N) (s : string) :
  s ≠ "" → pretty_N_go x s ≠ "".
Proof.
  revert s. induction (N.lt_wf_0 x) as [x _ IH]. intros s Hs.
  destruct (decide (x = 0)%N) as [->|Hx].
  - by rewrite pretty_N_go_0.
  - rewrite pretty_N_go_step by lia.
    apply IH; [apply N.div_lt; lia | done].
Qed.

Lemma pretty_nat_nonempty (i : nat) : pretty i ≠ "".
Proof.
  unfold pretty, pretty_nat, pretty, pretty_N.
  destruct (decide (N.of_nat i = 0)%N) as [_|Hi]; [done|].
  rewrite pretty_N_go_step by lia. by apply pretty_N_go_nonempty.
Qed.

Lemma uid_candidate_inj (name : string) (i j : nat) :
  1 ≤ i → 1 ≤ j → uid_candidate name i = uid_candidate name j → i = j.
Proof.
  unfold uid_candidate. intros Hi Hj Heq.
  apply (inj (String.app "_")), (inj (String.app name)) in Heq.
  repeat case_decide; try lia.
  - by destruct (pretty_nat_nonempty j).
  - by destruct (pretty_nat_nonempty i).
  - by apply (inj pretty).
Qed.

Lemma generateUid_from_fresh (fuel : nat) :
  ∀ (i : nat) (name : string) (used rest : gset string),
    1 ≤ i →
    size rest ≤ fuel →
    (∀ s, s ∈ used → s ∈ rest ∨ ∃ j, 1 ≤ j < i ∧ s = uid_candidate name j) →
    generateUid_from fuel i name used ∉ used.
Proof.
  induction fuel as [|fuel IH]; intros i name used rest Hi Hsize Hcover; simpl.
  - intros Hin. destruct (Hcover _ Hin) as [Hrest|(j & Hj & Heq)].
    + assert (size rest = 0) as Hz by lia.
      apply size_empty_inv in Hz. set_solver.
    + apply uid_candidate_inj in Heq; lia.
  - case_decide as Hin; [|done].
    apply (IH (S i) name used (rest ∖ {[uid_candidate name i]})); [lia| |].
    + destruct (Hcover _ Hin) as [Hrest|(j & Hj & Heq)].
      * rewrite size_difference by set_solver. rewrite size_singleton.
        assert (size ({[uid_candidate name i]} : gset string) ≤ size rest) as Hle
          by (apply subseteq_size; set_solver).
        rewrite size_singleton in Hle. lia.
      * apply uid_candidate_inj in Heq; lia.
    + intros s Hs. destruct (decide (s = uid_candidate name i)) as [->|Hne].
      * right. exists i. split; [lia|done].
      * destruct (Hcover _ Hs) as [Hrest|(j & Hj & Heq)].
        -- left. set_solver.
        -- right. exists j. split; [lia|done].
Qed.

Lemma generateUid_fresh (name : string) (p : Program) :
  generateUid name p ∉ bindings p ∪ taken p.
Proof.
  unfold generateUid.
  apply (generateUid_from_fresh _ 1 name _ (bindings p ∪ taken p)); auto.
Qed.

(** ** The entry visitor *)

Lemma filterSpecifiers_spec (specifiers : list ImportSpecifierNode)
    (ci : CompiledImports) :
  filterSpecifiers specifiers ci
  = (filter (λ s, styledLocal s = None) specifiers,
     match last (omap styledLocal specifiers) with
     | Some l => mkCompiledImports (Some l)
     | None => ci
     end).
Proof.
  revert ci. induction specifiers as [|s rest IH]; intros ci; [done|].
  cbn [filterSpecifiers omap list_omap]. unfold filter; cbn [list_filter].
  destruct s as [imported l| |]; cbn [keepSpecifier styledLocal].
  - destruct (decide (imported = "styled")) as [->|Hne].
    + rewrite IH. rewrite decide_False by done.
      destruct (omap styledLocal rest) as [|x xs] eqn:E; [done|].
      change (last (l :: x :: xs)) with (last (x :: xs)).
      destruct (last (x :: xs)) eqn:E2; [done|]. by apply last_None in E2.
    + rewrite IH. by rewrite decide_True by done.
  - rewrite IH. by rewrite decide_True by done.
  - rewrite IH. by rewrite decide_True by done.
Qed.

(** C6.  On an import declaration whose source is ['@compiled/core'] the
    visitor marks the module as opted in ([compiledImports] is set), drops
    every named specifier of [styled] while recording its local name in
    [compiledImports.styled] (nothing is recorded when there is none), keeps
    all other specifiers in order, and always appends the named specifiers
    [ax], [CC] and [CS]; nothing else of the state or program changes. *)
Theorem visit_ImportDeclaration_compiled_core {Cache : Type}
    (specifiers : list ImportSpecifierNode) (w : World Cache) :
  visit_ImportDeclaration specifiers "@compiled/core" w
  = Ok (ImportDeclaration
          (filter (λ s, styledLocal s = None) specifiers
           ++ [ImportSpecifier "ax" "ax"; ImportSpecifier "CC" "CC";
               ImportSpecifier "CS" "CS"])
          "@compiled/core",
        mkWorld
          (mkState
             (Some (mkCompiledImports (last (omap styledLocal specifiers))))
             (sheets (state w)) (nonce (state w)) (cache (state w)))
          (program w)).
Proof.
  unfold visit_ImportDeclaration. rewrite decide_True by done.
  unfold bind, get_state, put_state, ret. rewrite filterSpecifiers_spec.
  cbn. by destruct (last (omap styledLocal specifiers)).
Qed.

Lemma cons_neq_self {A} (x : A) (l : list A) : x :: l ≠ l.
Proof. intros H. apply (f_equal length) in H. cbn in H. lia. Qed.

(** C7.  [Program.exit] always returns; it prepends
    [import * as React from 'react'] to the body exactly when the module was
    opted in and the program scope has no binding named [React], and leaves
    the program as it is otherwise. *)
Theorem Program_exit_adds_React_iff_missing {Cache : Type} (w : World Cache) :
  ∃ w', Program_exit w = Ok (tt, w')
    ∧ state w' = state w
    ∧ (body (program w')
       = ImportDeclaration [ImportNamespaceSpecifier "React"] "react"
         :: body (program w)
       ↔ is_Some (compiledImports (state w)) ∧ "React" ∉ bindings (program w))
    ∧ (¬ (is_Some (compiledImports (state w))
          ∧ "React" ∉ bindings (program w)) → w' = w).
Proof.
  unfold Program_exit, bind, get_state, get_program, put_program, ret.
  destruct w as [st p]. cbn.
  destruct (compiledImports st) as [ci|] eqn:Hci.
  - destruct (decide ("React" ∈ bindings p)) as [Hin|Hnot].
    + eexists. split; [done|]. split; [done|]. split; [|done].
      cbn. split; [intros H; by destruct (cons_neq_self _ _ (eq_sym H))|].
      intros [_ ?]. done.
    + eexists. split; [done|]. split; [done|]. split.
      * cbn. split; [|done]. intros _. split; [by eexists|done].
      * intros H. destruct H. split; [by eexists|done].
  - eexists. split; [done|]. split; [done|]. split; [|done].
    cbn. split; [intros H; by destruct (cons_neq_self _ _ (eq_sym H))|].
    intros [[? ?] _]. done.
Qed.

(** ** CSS variables as style properties *)

Lemma unique_from_sublist {A} (key : A → string) (seen : gset string)
    (l : list A) :
  sublist (unique_from key seen l) l.
Proof.
  revert seen. induction l as [|x l IH]; intros seen; cbn; [constructor|].
  case_decide; [apply sublist_cons|apply sublist_skip]; apply IH.
Qed.

Lemma unique_from_keys {A} (key : A → string) (seen : gset string)
    (l : list A) (k : string) :
  k ∈ key <$> unique_from key seen l ↔ k ∈ key <$> l ∧ k ∉ seen.
Proof.
  revert seen. induction l as [|x l IH]; intros seen; cbn.
  - rewrite elem_of_nil. tauto.
  - case_decide as Hseen; rewrite ?fmap_cons, ?elem_of_cons, IH.
    + split; [tauto|]. intros [[->|?] ?]; tauto.
    + rewrite elem_of_union, elem_of_singleton.
      destruct (decide (k = key x)) as [->|]; tauto.
Qed.

Lemma unique_from_NoDup {A} (key : A → string) (seen : gset string)
    (l : list A) :
  NoDup (key <$> unique_from key seen l).
Proof.
  revert seen. induction l as [|x l IH]; intros seen; cbn; [constructor|].
  case_decide as Hseen; [apply IH|]. rewrite fmap_cons.
  constructor; [|apply IH].
  rewrite unique_from_keys, elem_of_union, elem_of_singleton. tauto.
Qed.

Lemma unique_from_first {A} (key : A → string) (seen : gset string)
    (l : list A) (v : A) :
  v ∈ unique_from key seen l →
  (key v ∉ seen) ∧ (∃ i, list_find (λ y, key y = key v) l = Some (i, v)).
Proof.
  revert seen. induction l as [|x l IH]; intros seen; cbn.
  - by rewrite elem_of_nil.
  - case_decide as Hseen.
    + intros Hv. destruct (IH _ Hv) as [Hk [i Hi]]. split; [done|].
      exists (S i). rewrite decide_False by congruence.
      by rewrite Hi.
    + rewrite elem_of_cons. intros [->|Hv].
      * split; [done|]. exists 0. by rewrite decide_True.
      * destruct (IH _ Hv) as [Hk [i Hi]].
        rewrite elem_of_union, elem_of_singleton in Hk.
        split; [tauto|].
        exists (S i). rewrite decide_False by (intros E; apply Hk; by left).
        by rewrite Hi.
Qed.

Lemma map_acc_Forall2 {A B S} (f : A → S → B * S) (l : list A) (s : S) :
  Forall2 (λ y x, ∃ s', y = (f x s').1) (map_acc f l s).1 l.
Proof.
  revert s. induction l as [|x l IH]; intros s; cbn; [constructor|].
  destruct (f x s) as [y s1] eqn:E. specialize (IH s1).
  destruct (map_acc f l s1) as [ys s2]. cbn in *.
  constructor; [|done]. exists s. by rewrite E.
Qed.

Lemma map_acc_pure {A B} (g : A → B) (l : list A) (s : unit) :
  map_acc (λ x s, (g x, s)) l s = (map g l, s).
Proof.
  induction l as [|x l IH]; cbn; [done|]. by rewrite IH.
Qed.

(** C5.  The style properties built from a sequence of variables are one
    property per distinct variable name: the variables kept are pairwise
    distinct by name, cover every name of the sequence, are each the first
    occurrence of their name, and stand in the order of the sequence; the
    properties are, in that order, keyed by the name and valued by the
    transformed expression of that first occurrence (the expression itself
    for the default transform). *)
Theorem buildCssVariablesProp_first_occurrence {S : Type}
    (variables : list CssVariable) (transform : Node → S → Node * S) (s : S) :
  let kept := unique variables var_name in
  NoDup (var_name <$> kept)
  ∧ (∀ n, n ∈ var_name <$> kept ↔ n ∈ var_name <$> variables)
  ∧ sublist kept variables
  ∧ (∀ v, v ∈ kept →
       ∃ i, list_find (λ y, var_name y = var_name v) variables = Some (i, v))
  ∧ Forall2
      (λ prop v, ∃ s',
         prop = ObjectProperty (StringLiteral (var_name v))
                  (transform (var_expression v) s').1)
      (buildCssVariablesProp variables transform s).1 kept
  ∧ (buildCssVariablesProp variables identityTransform tt).1
    = map (λ v, ObjectProperty (StringLiteral (var_name v)) (var_expression v))
        kept.
Proof.
  cbn zeta. unfold unique. repeat split.
  - apply unique_from_NoDup.
  - rewrite unique_from_keys. tauto.
  - rewrite unique_from_keys, elem_of_empty. tauto.
  - apply unique_from_sublist.
  - intros v Hv. by apply unique_from_first in Hv as [_ ?].
  - unfold buildCssVariablesProp, unique.
    eapply Forall2_impl; [apply map_acc_Forall2|].
    cbn. intros prop v [s' ->]. exists s'.
    by destruct (transform (var_expression v) s').
  - unfold buildCssVariablesProp, identityTransform, unique. cbn.
    by rewrite (map_acc_pure
      (λ v, ObjectProperty (StringLiteral (var_name v)) (var_expression v))).
Qed.

(** ** Merging a preexisting style object *)

Lemma splice_insert_sublist {A} (k : nat) (x : A) (l : list A) :
  sublist l (splice_insert k x l).
Proof.
  unfold splice_insert. rewrite <- (take_drop k l) at 1.
  apply sublist_app; [done|]. by apply sublist_cons.
Qed.

Lemma splice_insert_perm {A} (k : nat) (x : A) (l : list A) :
  splice_insert k x l ≡ₚ x :: l.
Proof.
  unfold splice_insert. rewrite <- Permutation_middle.
  by rewrite take_drop.
Qed.

Lemma mergeStyleProperties_sublist_dynamic (properties : list (ObjectMember Node)) :
  ∀ (k : nat) (cur : list (ObjectMember Node)),
    sublist cur (mergeStyleProperties k properties cur).
Proof.
  induction properties as [|p rest IH]; intros k cur; cbn; [done|].
  destruct (isObjectMethod p); [apply IH|].
  etrans; [apply (splice_insert_sublist k p)|apply IH].
Qed.

Lemma mergeStyleProperties_perm (properties : list (ObjectMember Node)) :
  ∀ (k : nat) (cur : list (ObjectMember Node)),
    mergeStyleProperties k properties cur ≡ₚ nonMethods properties ++ cur.
Proof.
  unfold nonMethods.
  induction properties as [|p rest IH]; intros k cur; [done|].
  cbn [mergeStyleProperties]. rewrite IH. destruct (isObjectMethod p) eqn:E.
  - by rewrite filter_cons_False by (rewrite E; done).
  - rewrite filter_cons_True by done. rewrite splice_insert_perm.
    cbn. by rewrite <- Permutation_middle.
Qed.

Lemma mergeStyleProperties_sublist_original
    (properties : list (ObjectMember Node)) :
  ∀ (k : nat) (cur placed : list (ObjectMember Node)),
    sublist placed (take k cur) →
    sublist (placed ++ nonMethods properties)
      (mergeStyleProperties k properties cur).
Proof.
  unfold nonMethods.
  induction properties as [|p rest IH]; intros k cur placed Hplaced.
  - cbn. rewrite app_nil_r. etrans; [done|]. apply sublist_take.
  - cbn [mergeStyleProperties]. destruct (isObjectMethod p) eqn:E.
    + rewrite filter_cons_False by (rewrite E; done). apply IH.
      etrans; [done|].
      replace (take k cur) with (take k (take (S k) cur))
        by (rewrite take_take; f_equal; lia).
      apply sublist_take.
    + rewrite filter_cons_True by done.
      rewrite cons_middle, (assoc_L (++) placed [p]). apply IH.
      unfold splice_insert.
      assert (length (take k cur) ≤ k) by (rewrite length_take; lia).
      rewrite take_app_ge by lia.
      apply sublist_app; [done|].
      destruct (S k - length (take k cur)) as [|m] eqn:Em; [lia|].
      cbn. apply sublist_skip, sublist_nil_l.
Qed.

Lemma mergeStyleProperties_no_methods (properties : list (ObjectMember Node)) :
  Forall (λ p, isObjectMethod p = false) properties →
  ∀ (placed dynamic : list (ObjectMember Node)),
    mergeStyleProperties (length placed) properties (placed ++ dynamic)
    = placed ++ properties ++ dynamic.
Proof.
  induction 1 as [|p rest Hp _ IH]; intros placed dynamic; cbn; [done|].
  rewrite Hp. unfold splice_insert.
  rewrite take_app_length, drop_app_length.
  specialize (IH (placed ++ [p]) dynamic).
  rewrite length_app, Nat.add_1_r in IH. cbn in IH.
  by rewrite <- !(assoc_L (++)) in IH.
Qed.

Lemma findAttribute_lookup (name : string) (attributes : list (JSXAttr Node))
    (i : nat) (value : option Node) :
  findAttribute name attributes = Some (i, value) →
  attributes !! i = Some (JSXAttribute name value).
Proof.
  revert i. induction attributes as [|a rest IH]; intros i; cbn; [done|].
  destruct a as [n v|arg].
  - case_decide as Hn; [intros [= <- <-]; by subst|].
    destruct (findAttribute name rest) as [[j u]|]; [|done].
    intros [= <- <-]. by apply IH.
  - destruct (findAttribute name rest) as [[j u]|]; [|done].
    intros [= <- <-]. by apply IH.
Qed.

Lemma findAttribute_insert_other (name other : string)
    (attributes : list (JSXAttr Node)) (i : nat) (old new : option Node) :
  name ≠ other →
  attributes !! i = Some (JSXAttribute other old) →
  findAttribute name (<[i := JSXAttribute other new]> attributes)
  = findAttribute name attributes.
Proof.
  intros Hne. revert i.
  induction attributes as [|a rest IH]; intros i Hi; [done|].
  destruct i as [|i]; cbn in *.
  - injection Hi as ->. by rewrite !decide_False by done.
  - by rewrite IH.
Qed.

Lemma findAttribute_app_other (name other : string)
    (attributes : list (JSXAttr Node)) (value : option Node) :
  name ≠ other →
  findAttribute name (attributes ++ [JSXAttribute other value])
  = findAttribute name attributes.
Proof.
  intros Hne. induction attributes as [|a rest IH]; cbn.
  - by rewrite decide_False by done.
  - by rewrite IH.
Qed.

Lemma classNameAttributes_style (classNames : list string)
    (attributes attributes1 : list (JSXAttr Node)) :
  classNameAttributes classNames attributes = Ok attributes1 →
  findAttribute "style" attributes1 = findAttribute "style" attributes.
Proof.
  unfold classNameAttributes.
  destruct (findAttribute "className" attributes) as [[i [v|]]|] eqn:E.
  - destruct (getPropValue v); [|done..]. intros [= <-].
    eapply findAttribute_insert_other; [done|].
    by apply findAttribute_lookup.
  - intros [= <-]. by apply findAttribute_app_other.
  - intros [= <-]. by apply findAttribute_app_other.
Qed.

Lemma buildCompiledComponent_run {Cache : Type}
    (transformCss : string → TransformCssResult) (name : Node)
    (attributes : list (JSXAttr Node)) (children : list Node)
    (cssOutput : CSSOutput) (w w' : World Cache)
    (attributes1 : list (JSXAttr Node)) (ids : list string) :
  classNameAttributes (css_classNames (transformCss (css cssOutput)))
    attributes = Ok attributes1 →
  mapM hoistSheet (css_sheets (transformCss (css cssOutput))) w
    = Ok (ids, w') →
  buildCompiledComponent transformCss (JSXElement name attributes children)
    cssOutput w
  = Ok (JSXElement (Identifier "CC") []
          [csElement (nonceAttributeOf (nonce (state w))) ids;
           JSXExpressionContainer
             (JSXElement name
                (styleAttributes (variables cssOutput) attributes1)
                children)],
        w').
Proof.
  intros Hclass Hhoist.
  unfold buildCompiledComponent, compiledTemplate, nonceAttribute, bind, lift,
    get_state, ret.
  by rewrite Hclass, Hhoist.
Qed.

Lemma styleAttributes_style (variables : list CssVariable)
    (attributes : list (JSXAttr Node)) (i : nat) (value : option Node) :
  variables ≠ [] →
  findAttribute "style" attributes = Some (i, value) →
  styleAttributes variables attributes
  = delete i attributes
    ++ [jsxExpressionAttribute "style"
          (ObjectExpression
             (mergedStyleProperties value
                (buildCssVariablesProp variables identityTransform tt).1))].
Proof.
  intros Hv Hfind. unfold styleAttributes.
  destruct variables; [done|]. by rewrite Hfind.
Qed.

(** C8 (as amended).  For a css-prop call site whose class-name merge and
    hoisting go through, the emitted element carries the attributes of the
    class-name step with the style block applied.  Without variables the
    attributes are those of the class-name step and the preexisting [style]
    attribute is as it was.  With at least one variable and a preexisting
    [style] attribute whose value is an object expression, that attribute is
    removed and one new [style] attribute with a new object is pushed: the
    object holds the non-method properties of the original in declaration
    order and the CSS-variable assignments in their order and nothing else,
    and when the original has no object method it is the original
    properties at their positions followed by the variable assignments. *)
Theorem buildCompiledComponent_merges_style {Cache : Type}
    (transformCss : string → TransformCssResult) (name : Node)
    (attributes : list (JSXAttr Node)) (children : list Node)
    (cssOutput : CSSOutput) (w w' : World Cache)
    (attributes1 : list (JSXAttr Node)) (ids : list string) :
  classNameAttributes (css_classNames (transformCss (css cssOutput)))
    attributes = Ok attributes1 →
  mapM hoistSheet (css_sheets (transformCss (css cssOutput))) w
    = Ok (ids, w') →
  ∃ attributes2,
    buildCompiledComponent transformCss (JSXElement name attributes children)
      cssOutput w
    = Ok (JSXElement (Identifier "CC") []
            [csElement (nonceAttributeOf (nonce (state w))) ids;
             JSXExpressionContainer (JSXElement name attributes2 children)],
          w')
    ∧ (variables cssOutput = [] →
       attributes2 = attributes1
       ∧ findAttribute "style" attributes2 = findAttribute "style" attributes)
    ∧ (variables cssOutput ≠ [] →
       ∀ i properties,
         findAttribute "style" attributes
         = Some (i, Some (JSXExpressionContainer (ObjectExpression properties))) →
         let assignments :=
           map (λ v, ObjectProperty (StringLiteral (var_name v))
                       (var_expression v))
             (unique (variables cssOutput) var_name) in
         ∃ merged,
           attributes2
           = delete i attributes1
             ++ [jsxExpressionAttribute "style" (ObjectExpression merged)]
           ∧ sublist (nonMethods properties) merged
           ∧ sublist assignments merged
           ∧ merged ≡ₚ nonMethods properties ++ assignments
           ∧ (Forall (λ p, isObjectMethod p = false) properties →
              merged = properties ++ assignments)).
Proof.
  intros Hclass Hhoist.
  exists (styleAttributes (variables cssOutput) attributes1).
  split; [by apply buildCompiledComponent_run|]. split.
  - intros Hv. unfold styleAttributes. rewrite Hv. split; [done|].
    by eapply classNameAttributes_style.
  - intros Hv i properties Hfind assignments.
    exists (mergeStyleProperties 0 properties assignments).
    assert ((buildCssVariablesProp (variables cssOutput) identityTransform tt).1
            = assignments) as Hdyn.
    { unfold buildCssVariablesProp, identityTransform. cbn.
      by rewrite (map_acc_pure
        (λ v, ObjectProperty (StringLiteral (var_name v)) (var_expression v))). }
    split; [|split; [|split; [|split]]].
    + erewrite styleAttributes_style; [|done|].
      2:{ erewrite classNameAttributes_style by done. done. }
      by rewrite Hdyn.
    + apply (mergeStyleProperties_sublist_original properties 0 assignments []).
      apply sublist_nil_l.
    + apply mergeStyleProperties_sublist_dynamic.
    + apply mergeStyleProperties_perm.
    + intros Hno.
      apply (mergeStyleProperties_no_methods properties Hno [] assignments).
Qed.

Lemma buildCompiledComponent_merges_style_witness :
  ∃ ids w' attributes2,
    buildCompiledComponent sampleTransformCss (styledDiv sampleStyle)
      sampleOutput sampleWorld
    = Ok (JSXElement (Identifier "CC") []
            [csElement [] ids;
             JSXExpressionContainer
               (JSXElement (Identifier "div") attributes2 [])],
          w')
    ∧ attributes2
      = [jsxExpressionAttribute "className" (axCall [StringLiteral "_1x"]);
         jsxExpressionAttribute "style"
           (ObjectExpression
              (sampleStyle
               ++ [ObjectProperty (StringLiteral "--color")
                     (Identifier "color")]))].
Proof.
  destruct (buildCompiledComponent_merges_style sampleTransformCss
              (Identifier "div")
              [jsxExpressionAttribute "style" (ObjectExpression sampleStyle)]
              [] sampleOutput sampleWorld
              (mkWorld
                 (mkState (Some (mkCompiledImports None))
                    (<["._1x{color:var(--color)}" := "_"]> ∅) None None)
                 (mkProgram
                    [ImportDeclaration [] "@compiled/core";
                     VariableDeclaration "const" "_"
                       (StringLiteral "._1x{color:var(--color)}");
                     ExpressionStatement (Identifier "App")]
                    {["App"]} ({["_"]} ∪ ∅)))
              [jsxExpressionAttribute "style" (ObjectExpression sampleStyle);
               jsxExpressionAttribute "className"
                 (axCall [StringLiteral "_1x"])]
              ["_"])
    as (attributes2 & Hrun & _ & Hmerge).
  - reflexivity.
  - vm_compute. reflexivity.
  - destruct (Hmerge ltac:(discriminate) 0 sampleStyle eq_refl)
      as (merged & Hattributes & _ & _ & _ & Hall).
    rewrite Hall in Hattributes by (repeat constructor). subst attributes2.
    eexists _, _, _. split; [exact Hrun|reflexivity].
Defined.

(** C8 as it is stated does not hold when the preexisting style object has
    an object method: for [style={{ get top() {...}, margin: 0 }}] and the
    variable [--color] the new object is [{ "--color": color, margin: 0 }],
    which is not the original properties followed by the assignment. *)
Lemma buildCompiledComponent_style_counterexample :
  ∃ w',
    buildCompiledComponent sampleTransformCss (styledDiv methodStyle)
      sampleOutput sampleWorld
    = Ok (JSXElement (Identifier "CC") []
            [csElement [] ["_"];
             JSXExpressionContainer
               (JSXElement (Identifier "div")
                  [jsxExpressionAttribute "className"
                     (axCall [StringLiteral "_1x"]);
                   jsxExpressionAttribute "style"
                     (ObjectExpression
                        [ObjectProperty (StringLiteral "--color")
                           (Identifier "color");
                         ObjectProperty (Identifier "margin")
                           (NumericLiteral 0)])]
                  [])],
          w')
    ∧ [ObjectProperty (StringLiteral "--color") (Identifier "color");
       ObjectProperty (Identifier "margin") (NumericLiteral 0)]
      ≠ methodStyle
        ++ [ObjectProperty (StringLiteral "--color") (Identifier "color")].
Proof.
  eexists. split; [vm_compute; reflexivity|discriminate].
Qed.

Lemma Forall_nonMethods (properties : list (ObjectMember Node)) :
  Forall (λ p, isObjectMethod p = false) (nonMethods properties).
Proof.
  unfold nonMethods. apply Forall_forall. intros p Hp.
  by apply list_elem_of_filter in Hp as [? _].
Qed.

(** C10.  During css-prop emission with at least one variable, when the
    preexisting [style] attribute holds an object expression, the call
    returns normally and the merged style object has no object method: every
    method, getter or setter of the original is absent from it, while it
    holds exactly the other properties of the original and the variable
    assignments. *)
Theorem buildCompiledComponent_drops_object_methods {Cache : Type}
    (transformCss : string → TransformCssResult) (name : Node)
    (attributes : list (JSXAttr Node)) (children : list Node)
    (cssOutput : CSSOutput) (w w' : World Cache)
    (attributes1 : list (JSXAttr Node)) (ids : list string)
    (i : nat) (properties : list (ObjectMember Node)) :
  classNameAttributes (css_classNames (transformCss (css cssOutput)))
    attributes = Ok attributes1 →
  mapM hoistSheet (css_sheets (transformCss (css cssOutput))) w
    = Ok (ids, w') →
  variables cssOutput ≠ [] →
  findAttribute "style" attributes
  = Some (i, Some (JSXExpressionContainer (ObjectExpression properties))) →
  ∃ merged,
    buildCompiledComponent transformCss (JSXElement name attributes children)
      cssOutput w
    = Ok (JSXElement (Identifier "CC") []
            [csElement (nonceAttributeOf (nonce (state w))) ids;
             JSXExpressionContainer
               (JSXElement name
                  (delete i attributes1
                   ++ [jsxExpressionAttribute "style"
                         (ObjectExpression merged)])
                  children)],
          w')
    ∧ Forall (λ p, isObjectMethod p = false) merged
    ∧ (∀ p, p ∈ properties → isObjectMethod p = true → p ∉ merged)
    ∧ (∀ p, p ∈ properties → isObjectMethod p = false → p ∈ merged).
Proof.
  intros Hclass Hhoist Hv Hfind.
  set (dynamic :=
         (buildCssVariablesProp (variables cssOutput) identityTransform tt).1).
  exists (mergeStyleProperties 0 properties dynamic).
  assert (Forall (λ p, isObjectMethod p = false) dynamic) as Hdyn.
  { unfold dynamic, buildCssVariablesProp, identityTransform. cbn.
    rewrite (map_acc_pure
      (λ v, ObjectProperty (StringLiteral (var_name v)) (var_expression v))).
    cbn. apply Forall_forall. intros p Hp.
    apply list_elem_of_In, in_map_iff in Hp as (v & <- & _). done. }
  assert (Forall (λ p, isObjectMethod p = false)
            (mergeStyleProperties 0 properties dynamic)) as Hall.
  { rewrite mergeStyleProperties_perm. apply Forall_app.
    split; [apply Forall_nonMethods|done]. }
  split; [|split; [done|split]].
  - erewrite buildCompiledComponent_run by done.
    rewrite (styleAttributes_style _ _ i
               (Some (JSXExpressionContainer (ObjectExpression properties))));
      [done|done|].
    by erewrite classNameAttributes_style by done.
  - intros p _ Hmethod Hin.
    rewrite Forall_forall in Hall. specialize (Hall p Hin). congruence.
  - intros p Hin Hp. rewrite mergeStyleProperties_perm.
    apply elem_of_app. left. unfold nonMethods.
    by apply list_elem_of_filter.
Qed.

Lemma buildCompiledComponent_drops_object_methods_witness :
  ∃ w' merged,
    buildCompiledComponent sampleTransformCss (styledDiv methodStyle)
      sampleOutput sampleWorld
    = Ok (JSXElement (Identifier "CC") []
            [csElement [] ["_"];
             JSXExpressionContainer
               (JSXElement (Identifier "div")
                  [jsxExpressionAttribute "className"
                     (axCall [StringLiteral "_1x"]);
                   jsxExpressionAttribute "style" (ObjectExpression merged)]
                  [])],
          w')
    ∧ Forall (λ p, isObjectMethod p = false) merged.
Proof.
  destruct (buildCompiledComponent_drops_object_methods sampleTransformCss
              (Identifier "div")
              [jsxExpressionAttribute "style" (ObjectExpression methodStyle)]
              [] sampleOutput sampleWorld
              (mkWorld
                 (mkState (Some (mkCompiledImports None))
                    (<["._1x{color:var(--color)}" := "_"]> ∅) None None)
                 (mkProgram
                    [ImportDeclaration [] "@compiled/core";
                     VariableDeclaration "const" "_"
                       (StringLiteral "._1x{color:var(--color)}");
                     ExpressionStatement (Identifier "App")]
                    {["App"]} ({["_"]} ∪ ∅)))
              [jsxExpressionAttribute "style" (ObjectExpression methodStyle);
               jsxExpressionAttribute "className"
                 (axCall [StringLiteral "_1x"])]
              ["_"] 0 methodStyle)
    as (merged & Hrun & Hall & _).
  - reflexivity.
  - vm_compute. reflexivity.
  - discriminate.
  - reflexivity.
  - eexists _, merged. split; [exact Hrun|exact Hall].
Defined.

(** ** Errors *)

(** C9 as it is stated does not hold: the error raised for an empty JSX
    expression is the same whatever the source location of the expression,
    so no reading of the error recovers the location. *)
Lemma getPropValue_error_has_no_location :
  ¬ ∃ locate : JsError → SourceLocation,
      ∀ loc e,
        getPropValue (JSXExpressionContainer (JSXEmptyExpression loc))
        = Throw e →
        locate e = loc.
Proof.
  intros [locate Hlocate].
  pose proof (Hlocate (mkLoc 1 1) _ eq_refl) as H1.
  pose proof (Hlocate (mkLoc 2 1) _ eq_refl) as H2.
  rewrite H1 in H2. discriminate.
Qed.

(** C9 (as amended).  An empty JSX expression in an attribute slot read by
    [getPropValue] raises an error whose message names the construct,
    ["Empty expression not supported."]; the error is the same for every
    source location.  In particular a css-prop call site whose [className]
    attribute has an empty expression as its value raises it. *)
Theorem getPropValue_empty_expression {Cache : Type}
    (transformCss : string → TransformCssResult) (name : Node)
    (attributes : list (JSXAttr Node)) (children : list Node)
    (cssOutput : CSSOutput) (w : World Cache) (i : nat)
    (loc : SourceLocation) :
  findAttribute "className" attributes
  = Some (i, Some (JSXExpressionContainer (JSXEmptyExpression loc))) →
  getPropValue (JSXExpressionContainer (JSXEmptyExpression loc))
  = Throw (Error "Empty expression not supported.")
  ∧ getPropValue (JSXEmptyExpression loc)
    = Throw (Error "Empty expression not supported.")
  ∧ buildCompiledComponent transformCss (JSXElement name attributes children)
      cssOutput w
    = Throw (Error "Empty expression not supported.").
Proof.
  intros Hfind. split; [done|]. split; [done|].
  unfold buildCompiledComponent, bind, lift, classNameAttributes.
  by rewrite Hfind.
Qed.

Lemma getPropValue_empty_expression_witness :
  buildCompiledComponent sampleTransformCss emptyClassName sampleOutput
    sampleWorld
  = Throw (Error "Empty expression not supported.").
Proof.
  apply (getPropValue_empty_expression sampleTransformCss (Identifier "div")
           _ [] sampleOutput sampleWorld 0 (mkLoc 3 15)).
  reflexivity.
Defined.

(** ** The hoister *)

Lemma firstNonImport_Some (l : list Statement) (k : nat) :
  firstNonImport l = Some k →
  Forall (λ s, isImportDeclaration s = true) (take k l)
  ∧ ∃ s, l !! k = Some s ∧ isImportDeclaration s = false.
Proof.
  revert k. induction l as [|s l IH]; intros k; cbn; [done|].
  destruct (isImportDeclaration s) eqn:E.
  - destruct (firstNonImport l) as [j|]; [|done]. intros [= <-].
    destruct (IH j eq_refl) as [Hall Hk]. cbn. split; [by constructor|done].
  - intros [= <-]. cbn. split; [constructor|]. by exists s.
Qed.

Lemma firstNonImport_app (pre rest : list Statement) (s : Statement) :
  Forall (λ s, isImportDeclaration s = true) pre →
  isImportDeclaration s = false →
  firstNonImport (pre ++ s :: rest) = Some (length pre).
Proof.
  intros Hpre Hs. induction Hpre as [|x pre Hx _ IH]; cbn.
  - by rewrite Hs.
  - by rewrite Hx, IH.
Qed.

Lemma firstNonImport_hoisted (b0 : list Statement) (k : nat)
    (consts : list (string * string)) :
  firstNonImport b0 = Some k →
  firstNonImport (take k b0 ++ (sheetConstant <$> consts) ++ drop k b0)
  = Some k.
Proof.
  intros Hk. destruct (firstNonImport_Some _ _ Hk) as [Hall (s & Hs & Hnon)].
  assert (length (take k b0) = k) as Hlen.
  { apply length_take_le. apply lookup_lt_Some in Hs. lia. }
  destruct consts as [|c consts]; cbn.
  - rewrite (drop_S _ _ _ Hs). rewrite firstNonImport_app by done. by rewrite Hlen.
  - rewrite firstNonImport_app by done. by rewrite Hlen.
Qed.

Lemma splice_insert_hoisted (b0 : list Statement) (k : nat)
    (consts : list Statement) (d : Statement) :
  k ≤ length b0 →
  splice_insert k d (take k b0 ++ consts ++ drop k b0)
  = take k b0 ++ (d :: consts) ++ drop k b0.
Proof.
  intros Hk. unfold splice_insert.
  assert (length (take k b0) = k) as Hlen by (by apply length_take_le).
  by rewrite take_app_length', drop_app_length' by done.
Qed.

Lemma hoistSheet_hit {Cache : Type} (sheet id : string) (w : World Cache) :
  sheets (state w) !! sheet = Some id → hoistSheet sheet w = Ok (id, w).
Proof.
  intros Hhit. unfold hoistSheet, bind, get_state. cbn. by rewrite Hhit.
Qed.

Lemma hoistSheet_miss {Cache : Type} (k : nat) (p0 : Program)
    (hoisted : list (string * string)) (sheet : string) (w : World Cache) :
  Hoisted k p0 hoisted w →
  sheets (state w) !! sheet = None →
  let id := generateUid "" (program w) in
  let w' :=
    mkWorld
      (mkState (compiledImports (state w)) (<[sheet := id]> (sheets (state w)))
         (nonce (state w)) (cache (state w)))
      (mkProgram
         (take k (body p0)
          ++ (sheetConstant <$> (sheet, id) :: hoisted) ++ drop k (body p0))
         (bindings (program w)) ({[id]} ∪ taken (program w))) in
  hoistSheet sheet w = Ok (id, w')
  ∧ Hoisted k p0 ((sheet, id) :: hoisted) w'
  ∧ (sheet ∉ hoisted.*1)
  ∧ (id ∉ hoisted.*2).
Proof.
  intros [Hfirst Hbody Hsheets Hs Hi Hbind Htaken Hfresh] Hmiss id w'.
  pose proof (generateUid_fresh "" (program w)) as Hnew. fold id in Hnew.
  assert (id ∉ hoisted.*2) as Hid.
  { intros Hin. apply Hnew. rewrite Htaken.
    apply elem_of_union_r, elem_of_union_l. by apply elem_of_list_to_set. }
  assert (sheet ∉ hoisted.*1) as Hsheet.
  { rewrite Hsheets in Hmiss. by apply not_elem_of_list_to_map in Hmiss. }
  assert (k ≤ length (body p0)) as Hk.
  { destruct (firstNonImport_Some _ _ Hfirst) as [_ (s & Hlook & _)].
    apply lookup_lt_Some in Hlook. lia. }
  split; [|split; [|done]].
  - unfold hoistSheet, bind, get_state, generateUidIdentifier, get_program,
      put_program, insertBefore, set_sheet, put_state, ret.
    cbn. rewrite Hmiss. cbn. rewrite Hbody.
    rewrite firstNonImport_hoisted by done. cbn.
    rewrite splice_insert_hoisted by done. done.
  - split; cbn; try done.
    + by rewrite Hsheets.
    + by constructor.
    + by constructor.
    + rewrite Htaken. by rewrite (assoc_L (∪)).
    + intros j [->|Hj]%elem_of_cons; [|by apply Hfresh].
      rewrite Hbind, Htaken in Hnew.
      intros Hin. apply Hnew. set_solver.
Qed.

Lemma hoistSheets_run {Cache : Type} (k : nat) (p0 : Program)
    (ss : list string) :
  ∀ (hoisted : list (string * string)) (w : World Cache),
    Hoisted k p0 hoisted w →
    ∃ ids w1 added,
      mapM hoistSheet ss w = Ok (ids, w1)
      ∧ Hoisted k p0 (added ++ hoisted) w1
      ∧ Forall2 (λ sheet id, (sheet, id) ∈ added ++ hoisted) ss ids
      ∧ (∀ sheet, sheet ∈ (added ++ hoisted).*1
                  ↔ sheet ∈ ss ∨ sheet ∈ hoisted.*1).
Proof.
  induction ss as [|s ss IH]; intros hoisted w Hinv.
  - exists [], w, []. cbn. split; [done|]. split; [done|].
    split; [constructor|]. intros sheet. rewrite elem_of_nil. tauto.
  - destruct (sheets (state w) !! s) as [id|] eqn:Hlook.
    + destruct (IH hoisted w Hinv) as (ids & w1 & added & Hrun & Hinv1 & Hids & Hdom).
      exists (id :: ids), w1, added.
      assert ((s, id) ∈ hoisted) as Hin.
      { rewrite (hoisted_sheets _ _ _ _ Hinv) in Hlook.
        by apply elem_of_list_to_map_2 in Hlook. }
      split; [|split; [done|split]].
      * cbn. unfold bind. rewrite (hoistSheet_hit s id w Hlook).
        fold (@mapM Cache). rewrite Hrun. done.
      * constructor; [|done]. apply elem_of_app. by right.
      * intros sheet. rewrite Hdom, elem_of_cons.
        split; [tauto|]. intros [[->|?]|?]; [|tauto..].
        right. apply list_elem_of_fmap. by exists (s, id).
    + destruct (hoistSheet_miss k p0 hoisted s w Hinv Hlook)
        as (Hstep & Hinv' & Hs & Hid).
      destruct (IH _ _ Hinv')
        as (ids & w1 & added & Hrun & Hinv1 & Hids & Hdom).
      exists (generateUid "" (program w) :: ids), w1,
        (added ++ [(s, generateUid "" (program w))]).
      rewrite <- (assoc_L (++)). cbn [app].
      split; [|split; [done|split]].
      * cbn. unfold bind. rewrite Hstep. fold (@mapM Cache). by rewrite Hrun.
      * constructor; [|done]. apply elem_of_app. right. by left.
      * intros sheet. rewrite Hdom, fmap_cons, !elem_of_cons. cbn. tauto.
Qed.

(** C1.  Starting from the state that [pre] leaves ([sheets] empty) in a
    module that has a statement other than imports, any sequence [ss] of
    [hoistSheet] calls returns normally and leaves exactly one constant per
    distinct sheet string: the declarations [const id = "sheet"] stand
    together in front of the first statement that is not an import, the
    rest of the body is as it was, [state.sheets] maps each sheet to its
    identifier, the identifiers are pairwise distinct and new to the
    program, and their number is the number of distinct strings in [ss].
    Every call returned the identifier recorded for its sheet; from then on
    a call with a hoisted sheet returns the recorded identifier and changes
    nothing, and a call with a new sheet inserts one more declaration at
    that place and records its identifier. *)
Theorem hoistSheet_one_constant_per_sheet {Cache : Type} (w0 : World Cache)
    (k : nat) (ss : list string) :
  sheets (state w0) = ∅ →
  firstNonImport (body (program w0)) = Some k →
  ∃ ids w1 hoisted,
    mapM hoistSheet ss w0 = Ok (ids, w1)
    ∧ body (program w1)
      = take k (body (program w0)) ++ (sheetConstant <$> hoisted)
        ++ drop k (body (program w0))
    ∧ sheets (state w1) = list_to_map hoisted
    ∧ NoDup hoisted.*1
    ∧ NoDup hoisted.*2
    ∧ (∀ id, id ∈ hoisted.*2 →
             id ∉ bindings (program w0) ∪ taken (program w0))
    ∧ (∀ sheet, sheet ∈ hoisted.*1 ↔ sheet ∈ ss)
    ∧ length hoisted = size (list_to_set ss : gset string)
    ∧ Forall2 (λ sheet id, (sheet, id) ∈ hoisted) ss ids
    ∧ (∀ sheet id, (sheet, id) ∈ hoisted →
         hoistSheet sheet w1 = Ok (id, w1))
    ∧ (∀ sheet, sheet ∉ ss →
         ∃ id w2,
           hoistSheet sheet w1 = Ok (id, w2)
           ∧ (id ∉ hoisted.*2)
           ∧ body (program w2)
             = take k (body (program w0))
               ++ sheetConstant (sheet, id) :: (sheetConstant <$> hoisted)
               ++ drop k (body (program w0))
           ∧ sheets (state w2) = <[sheet := id]> (sheets (state w1))).
Proof.
  intros Hempty Hfirst.
  assert (Hoisted k (program w0) [] w0) as Hinv0.
  { split; cbn; try done.
    - by rewrite take_drop.
    - constructor.
    - constructor.
    - by rewrite (left_id_L ∅ (∪)).
    - intros id Hid. by apply elem_of_nil in Hid. }
  destruct (hoistSheets_run k (program w0) ss [] w0 Hinv0)
    as (ids & w1 & hoisted & Hrun & Hinv1 & Hids & Hdom).
  rewrite app_nil_r in Hinv1, Hids, Hdom.
  exists ids, w1, hoisted.
  pose proof Hinv1 as [_ Hbody Hsheets Hs Hi Hbind Htaken Hfresh].
  repeat (split; [done|]).
  assert (∀ sheet, sheet ∈ hoisted.*1 ↔ sheet ∈ ss) as Hdom'.
  { intros sheet. rewrite Hdom. cbn. rewrite elem_of_nil. tauto. }
  split; [done|]. split; [|split; [done|split]].
  - rewrite <- (length_fmap fst hoisted), <- (size_list_to_set (C:=gset string)) by done.
    f_equal. apply set_eq. intros sheet. by rewrite !elem_of_list_to_set.
  - intros sheet id Hin. apply hoistSheet_hit. rewrite Hsheets.
    by apply elem_of_list_to_map_1.
  - intros sheet Hnew.
    assert (sheets (state w1) !! sheet = None) as Hmiss.
    { rewrite Hsheets. apply not_elem_of_list_to_map_1. by rewrite Hdom'. }
    destruct (hoistSheet_miss k (program w0) hoisted sheet w1 ltac:(done) Hmiss)
      as (Hstep & _ & _ & Hid).
    eexists _, _. split; [exact Hstep|]. split; [done|]. split; done.
Qed.

Lemma hoistSheet_one_constant_per_sheet_witness :
  ∃ w1,
    mapM hoistSheet ["a{}"; "b{}"; "a{}"] sampleWorld
    = Ok (["_"; "_2"; "_"], w1)
    ∧ body (program w1)
      = [ImportDeclaration [] "@compiled/core";
         VariableDeclaration "const" "_2" (StringLiteral "b{}");
         VariableDeclaration "const" "_" (StringLiteral "a{}");
         ExpressionStatement (Identifier "App")]
    ∧ size (list_to_set ["a{}"; "b{}"; "a{}"] : gset string) = 2.
Proof.
  destruct (hoistSheet_one_constant_per_sheet sampleWorld 1
              ["a{}"; "b{}"; "a{}"] eq_refl eq_refl)
    as (ids & w1 & hoisted & Hrun & _).
  vm_compute in Hrun. injection Hrun as <- <-.
  eexists. split; [vm_compute; reflexivity|].
  split; [reflexivity|vm_compute; reflexivity].
Defined.

(** ** Induction over nodes *)

Section NodeInduction.
Variable P : Node → Prop.
Hypothesis HIdentifier : ∀ name, P (Identifier name).
Hypothesis HStringLiteral : ∀ value, P (StringLiteral value).
Hypothesis HNumericLiteral : ∀ value, P (NumericLiteral value).
Hypothesis HMember : ∀ object property,
  P object → P (MemberExpression object property).
Hypothesis HArrow : ∀ params body,
  Forall (pattern_Forall P) params → P body →
  P (ArrowFunctionExpression params body).
Hypothesis HBinary : ∀ operator lhs rhs,
  P lhs → P rhs → P (BinaryExpression operator lhs rhs).
Hypothesis HConditional : ∀ test consequent alternate,
  P test → P consequent → P alternate →
  P (ConditionalExpression test consequent alternate).
Hypothesis HCall : ∀ callee arguments,
  P callee → Forall P arguments → P (CallExpression callee arguments).
Hypothesis HTagged : ∀ tag quasis expressions,
  P tag → Forall P expressions →
  P (TaggedTemplateExpression tag quasis expressions).
Hypothesis HObject : ∀ properties,
  Forall (member_Forall P) properties → P (ObjectExpression properties).
Hypothesis HArray : ∀ elements,
  Forall (option_Forall P) elements → P (ArrayExpression elements).
Hypothesis HJSXElement : ∀ name attributes children,
  Forall (attribute_Forall P) attributes → Forall P children →
  P (JSXElement name attributes children).
Hypothesis HContainer : ∀ expression,
  P expression → P (JSXExpressionContainer expression).
Hypothesis HEmpty : ∀ loc, P (JSXEmptyExpression loc).
Hypothesis HText : ∀ value, P (JSXText value).

Lemma Node_nested_ind (n : Node) : P n.
Proof.
  revert n. fix IH 1. intros n.
  assert (∀ l : list Node, Forall P l) as Hlist.
  { intros l. induction l as [|x l IHl]; constructor; [apply IH|exact IHl]. }
  assert (∀ o : option Node, option_Forall P o) as Hoption.
  { intros [x|]; cbn; [apply IH|exact I]. }
  destruct n as [name|value|value|object property|params body|operator lhs rhs
                |test consequent alternate|callee arguments
                |tag quasis expressions|properties|elements
                |name attributes children|expression|loc|value].
  - apply HIdentifier.
  - apply HStringLiteral.
  - apply HNumericLiteral.
  - apply HMember, IH.
  - apply HArrow; [|apply IH].
    induction params as [|p params IHp]; constructor; [|exact IHp].
    destruct p as [x|properties rest]; cbn; [exact I|].
    induction properties as [|q properties IHq]; constructor;
      [apply Hoption|exact IHq].
  - apply HBinary; apply IH.
  - apply HConditional; apply IH.
  - apply HCall; [apply IH|apply Hlist].
  - apply HTagged; [apply IH|apply Hlist].
  - apply HObject.
    induction properties as [|m properties IHm]; constructor; [|exact IHm].
    destruct m; cbn; repeat split; apply IH.
  - apply HArray.
    induction elements as [|o elements IHo]; constructor;
      [apply Hoption|exact IHo].
  - apply HJSXElement; [|apply Hlist].
    induction attributes as [|a attributes IHa]; constructor; [|exact IHa].
    destruct a; cbn; [apply Hoption|apply IH].
  - apply HContainer, IH.
  - apply HEmpty.
  - apply HText.
Qed.
End NodeInduction.

(** ** The visitor of the styled template *)

Section VisitorFacts.
Variable isPropValid : string → bool.
Context {S : Type} (π : S → list string).







End VisitorFacts.

Section StyledFacts.
Variable isPropValid : string → bool.
Variable stopEndsTraversal : bool.















End StyledFacts.





(** ** Modules that are not opted in *)

Section NotOptedIn.
Context {Cache : Type}.
Variable initialize : option string → Cache → Cache.
Variable visitStyledPath : Node → M Cache (option Node).
Variable visitCssPropPath : Node → M Cache (option Node).

Lemma visitor_not_opted_in (n : Node) (w : World Cache) :
  compiledImports (state w) = None →
  visitor visitStyledPath visitCssPropPath n w = Ok (None, w).
Proof.
  intros Hnone.
  destruct n; try done; cbn;
    unfold visit_TaggedTemplateExpression, visit_CallExpression,
      visit_JSXOpeningElement, bind, get_state; cbn; by rewrite Hnone.
Qed.

Lemma mapM_untouched {A} (f : nat → A → M Cache A) (l : list A) :
  Forall (λ a, ∃ d, ∀ fuel w, d ≤ fuel → compiledImports (state w) = None →
                 f fuel a w = Ok (a, w)) l →
  ∃ d, ∀ fuel w, d ≤ fuel → compiledImports (state w) = None →
         mapM (f fuel) l w = Ok (l, w).
Proof.
  induction 1 as [|a l [d1 Ha] _ [d2 IH]].
  - exists 0. done.
  - exists (d1 `max` d2). intros fuel w Hfuel Hnone. cbn. unfold bind.
    rewrite Ha by (done || lia). rewrite IH by (done || lia). done.
Qed.

Variable enter : Node → M Cache (option Node).
Hypothesis enter_not_opted_in : ∀ n w,
  compiledImports (state w) = None → enter n w = Ok (None, w).

Lemma traverse_step (n : Node) (dc : nat) :
  (∀ fuel w, dc ≤ fuel → compiledImports (state w) = None →
     traverseChildren (traverse enter fuel) n w = Ok (n, w)) →
  Untouched enter (S dc) n.
Proof.
  intros Hchildren fuel w Hfuel Hnone.
  destruct fuel as [|fuel]; [lia|]. cbn [traverse]. unfold bind.
  rewrite enter_not_opted_in by done. apply Hchildren; [lia|done].
Qed.

Lemma optionM_untouched (o : option Node) :
  option_Forall (λ n, ∃ d, Untouched enter d n) o →
  ∃ d, ∀ fuel w, d ≤ fuel → compiledImports (state w) = None →
         optionM (traverse enter fuel) o w = Ok (o, w).
Proof.
  destruct o as [n|]; cbn; [|by exists 0].
  intros [d Hn]. exists d. intros fuel w Hfuel Hnone.
  unfold bind. by rewrite Hn.
Qed.

Lemma memberM_untouched (m : ObjectMember Node) :
  member_Forall (λ n, ∃ d, Untouched enter d n) m →
  ∃ d, ∀ fuel w, d ≤ fuel → compiledImports (state w) = None →
         memberM (traverse enter fuel) m w = Ok (m, w).
Proof.
  destruct m as [key value|argument|kind key params body]; cbn.
  - intros [[d1 H1] [d2 H2]]. exists (d1 `max` d2).
    intros fuel w Hfuel Hnone. unfold bind.
    rewrite H1 by (done || lia). by rewrite H2 by (done || lia).
  - intros [d1 H1]. exists d1. intros fuel w Hfuel Hnone. unfold bind.
    by rewrite H1.
  - intros [[d1 H1] [d2 H2]]. exists (d1 `max` d2).
    intros fuel w Hfuel Hnone. unfold bind.
    rewrite H1 by (done || lia). by rewrite H2 by (done || lia).
Qed.

Lemma attributeM_untouched (a : JSXAttr Node) :
  attribute_Forall (λ n, ∃ d, Untouched enter d n) a →
  ∃ d, ∀ fuel w, d ≤ fuel → compiledImports (state w) = None →
         attributeM (traverse enter fuel) a w = Ok (a, w).
Proof.
  destruct a as [name value|argument]; cbn.
  - intros [d H]%optionM_untouched. exists d.
    intros fuel w Hfuel Hnone. unfold bind. by rewrite H.
  - intros [d H]. exists d. intros fuel w Hfuel Hnone. unfold bind.
    by rewrite H.
Qed.

Lemma patternM_untouched (p : Pattern Node) :
  pattern_Forall (λ n, ∃ d, Untouched enter d n) p →
  ∃ d, ∀ fuel w, d ≤ fuel → compiledImports (state w) = None →
         patternM (traverse enter fuel) p w = Ok (p, w).
Proof.
  destruct p as [name|properties rest]; cbn; [by exists 0|].
  intros Hp.
  destruct (mapM_untouched
              (λ fuel q,
                 let* d := optionM (traverse enter fuel) (pat_default q) in
                 ret (mkPatternProperty (pat_key q) (pat_local q) d))
              properties) as [d Hd].
  { eapply Forall_impl; [exact Hp|]. intros q [d H]%optionM_untouched.
    exists d. intros fuel w Hfuel Hnone. unfold bind. rewrite H by done.
    by destruct q. }
  exists d. intros fuel w Hfuel Hnone. unfold bind in *. by rewrite Hd.
Qed.

Lemma traverse_untouched (n : Node) : ∃ d, Untouched enter d n.
Proof.
  induction n using Node_nested_ind.
  - exists 1. by apply traverse_step.
  - exists 1. by apply traverse_step.
  - exists 1. by apply traverse_step.
  - destruct IHn as [d Hd]. exists (S d). apply traverse_step.
    intros fuel w Hfuel Hnone. cbn. unfold bind. by rewrite Hd.
  - destruct IHn as [d2 Hd2].
    destruct (mapM_untouched (λ fuel, patternM (traverse enter fuel)) params)
      as [d1 Hd1].
    { eapply Forall_impl; [exact H|]. apply patternM_untouched. }
    exists (S (d1 `max` d2)). apply traverse_step.
    intros fuel w Hfuel Hnone. cbn. unfold bind.
    rewrite Hd1 by (done || lia). by rewrite Hd2 by (done || lia).
  - destruct IHn1 as [d1 Hd1], IHn2 as [d2 Hd2].
    exists (S (d1 `max` d2)). apply traverse_step.
    intros fuel w Hfuel Hnone. cbn. unfold bind.
    rewrite Hd1 by (done || lia). by rewrite Hd2 by (done || lia).
  - destruct IHn1 as [d1 Hd1], IHn2 as [d2 Hd2], IHn3 as [d3 Hd3].
    exists (S (d1 `max` (d2 `max` d3))). apply traverse_step.
    intros fuel w Hfuel Hnone. cbn. unfold bind.
    rewrite Hd1 by (done || lia). rewrite Hd2 by (done || lia).
    by rewrite Hd3 by (done || lia).
  - destruct IHn as [d1 Hd1].
    destruct (mapM_untouched (traverse enter) arguments H) as [d2 Hd2].
    exists (S (d1 `max` d2)). apply traverse_step.
    intros fuel w Hfuel Hnone. cbn. unfold bind.
    rewrite Hd1 by (done || lia). by rewrite Hd2 by (done || lia).
  - destruct IHn as [d1 Hd1].
    destruct (mapM_untouched (traverse enter) expressions H) as [d2 Hd2].
    exists (S (d1 `max` d2)). apply traverse_step.
    intros fuel w Hfuel Hnone. cbn. unfold bind.
    rewrite Hd1 by (done || lia). by rewrite Hd2 by (done || lia).
  - destruct (mapM_untouched (λ fuel, memberM (traverse enter fuel)) properties)
      as [d Hd].
    { eapply Forall_impl; [exact H|]. apply memberM_untouched. }
    exists (S d). apply traverse_step.
    intros fuel w Hfuel Hnone. cbn. unfold bind. by rewrite Hd.
  - destruct (mapM_untouched (λ fuel, optionM (traverse enter fuel)) elements)
      as [d Hd].
    { eapply Forall_impl; [exact H|]. apply optionM_untouched. }
    exists (S d). apply traverse_step.
    intros fuel w Hfuel Hnone. cbn. unfold bind. by rewrite Hd.
  - destruct (mapM_untouched (λ fuel, attributeM (traverse enter fuel))
                attributes) as [d1 Hd1].
    { eapply Forall_impl; [exact H|]. apply attributeM_untouched. }
    destruct (mapM_untouched (traverse enter) children H0) as [d2 Hd2].
    exists (S (d1 `max` d2)). apply traverse_step.
    intros fuel w Hfuel Hnone. cbn. unfold bind.
    rewrite Hd1 by (done || lia). by rewrite Hd2 by (done || lia).
  - destruct IHn as [d Hd]. exists (S d). apply traverse_step.
    intros fuel w Hfuel Hnone. cbn. unfold bind. by rewrite Hd.
  - exists 1. by apply traverse_step.
  - exists 1. by apply traverse_step.
Qed.
End NotOptedIn.

Lemma visitStatement_untouched {Cache : Type}
    (visitStyledPath visitCssPropPath : Node → M Cache (option Node))
    (s : Statement) :
  importsCompiled s = false →
  ∃ d, ∀ fuel w, d ≤ fuel → compiledImports (state w) = None →
         visitStatement visitStyledPath visitCssPropPath fuel s w = Ok (s, w).
Proof.
  intros Himport. destruct s as [specifiers source|kind id init|expression].
  - exists 0. intros fuel w _ _. cbn in *. unfold visit_ImportDeclaration.
    apply bool_decide_eq_false in Himport. by rewrite decide_False.
  - destruct (traverse_untouched _ (visitor_not_opted_in visitStyledPath
                                      visitCssPropPath) init) as [d Hd].
    exists d. intros fuel w Hfuel Hnone. cbn. unfold bind. by rewrite Hd.
  - destruct (traverse_untouched _ (visitor_not_opted_in visitStyledPath
                                      visitCssPropPath) expression) as [d Hd].
    exists d. intros fuel w Hfuel Hnone. cbn. unfold bind. by rewrite Hd.
Qed.

Lemma statements_untouched {Cache : Type}
    (visitStyledPath visitCssPropPath : Node → M Cache (option Node))
    (l : list Statement) :
  Forall (λ s, importsCompiled s = false) l →
  ∃ d, ∀ fuel, d ≤ fuel →
         Forall (λ s, ∀ w, compiledImports (state w) = None →
                   visitStatement visitStyledPath visitCssPropPath fuel s w
                   = Ok (s, w)) l.
Proof.
  induction 1 as [|s l Hs _ [d2 IH]]; [by exists 0|].
  destruct (visitStatement_untouched visitStyledPath visitCssPropPath s Hs)
    as [d1 H1].
  exists (d1 `max` d2). intros fuel Hfuel. constructor.
  - intros w Hnone. apply H1; [lia|done].
  - apply IH. lia.
Qed.

Lemma traverseBody_untouched {Cache : Type}
    (visitStyledPath visitCssPropPath : Node → M Cache (option Node))
    (fuel : nat) (w : World Cache) :
  compiledImports (state w) = None →
  Forall (λ s, ∀ w, compiledImports (state w) = None →
            visitStatement visitStyledPath visitCssPropPath fuel s w
            = Ok (s, w)) (body (program w)) →
  ∀ remaining cur,
    traverseBody visitStyledPath visitCssPropPath fuel remaining cur w
    = Ok (tt, w).
Proof.
  intros Hnone Hall remaining.
  induction remaining as [|remaining IH]; intros cur; [done|].
  cbn [traverseBody]. unfold bind, get_program. cbn.
  destruct (body (program w) !! cur) as [s|] eqn:Hcur; [|done].
  rewrite Forall_forall in Hall.
  rewrite (Hall s) by (done || by eapply list_elem_of_lookup_2).
  cbn. rewrite Nat.sub_diag, Nat.add_0_r, list_insert_id by done.
  unfold put_program. cbn.
  replace (mkWorld (state w)
             (mkProgram (body (program w)) (bindings (program w))
                (taken (program w)))) with w by (by destruct w as [? []]).
  apply IH.
Qed.

(** C4.  A module whose body has no import from ['@compiled/core'] comes
    out of the pass as it went in: with enough fuel for the depth of its
    expressions, [transform] returns the input program itself.  On the way
    [compiledImports] stays unset, so that the [ImportDeclaration] visitor
    returns the declaration unchanged, the [TaggedTemplateExpression],
    [CallExpression] and [JSXOpeningElement] visitors return without
    calling a handler whatever the handlers would do, and [Program.exit]
    adds nothing. *)
Theorem transform_untouched_without_import {Cache : Type}
    (initialize : option string → Cache → Cache)
    (visitStyledPath visitCssPropPath : Node → M Cache (option Node))
    (this : State Cache) (c : Cache) (file : Program) :
  compiledImports this = None →
  Forall (λ s, importsCompiled s = false) (body file) →
  let w0 := mkWorld (pre initialize this c).1 file in
  (∃ fuel0, ∀ fuel, fuel0 ≤ fuel →
     transform initialize visitStyledPath visitCssPropPath fuel this c file
     = Ok (file, initialize (nonce this) c))
  ∧ (∀ specifiers source,
       source ≠ "@compiled/core" →
       visit_ImportDeclaration specifiers source w0
       = Ok (ImportDeclaration specifiers source, w0))
  ∧ (∀ n, visit_TaggedTemplateExpression visitStyledPath n w0 = Ok (None, w0))
  ∧ (∀ n, visit_CallExpression visitStyledPath n w0 = Ok (None, w0))
  ∧ (∀ n, visit_JSXOpeningElement visitCssPropPath n w0 = Ok (None, w0))
  ∧ Program_exit w0 = Ok (tt, w0).
Proof.
  intros Hnone Himports w0.
  assert (compiledImports (state w0) = None) as Hnone0 by done.
  split; [|split; [|split; [|split; [|split]]]].
  - destruct (statements_untouched visitStyledPath visitCssPropPath
                (body file) Himports) as [fuel0 Hfuel0].
    exists fuel0. intros fuel Hfuel. unfold transform. cbn. unfold bind.
    fold w0.
    rewrite (traverseBody_untouched visitStyledPath visitCssPropPath fuel w0)
      by (done || by apply Hfuel0).
    unfold Program_exit, bind, get_state, get_program. cbn.
    by rewrite Hnone.
  - intros specifiers source Hsource. unfold visit_ImportDeclaration.
    by rewrite decide_False.
  - intros n. unfold visit_TaggedTemplateExpression, bind, get_state. cbn.
    by rewrite Hnone.
  - intros n. unfold visit_CallExpression, bind, get_state. cbn.
    by rewrite Hnone.
  - intros n. unfold visit_JSXOpeningElement, bind, get_state. cbn.
    by rewrite Hnone.
  - unfold Program_exit, bind, get_state, get_program. cbn. by rewrite Hnone.
Qed.

Lemma transform_untouched_without_import_witness :
  ∃ fuel0, ∀ fuel, fuel0 ≤ fuel →
    transform (λ _ c, c) replaceHandler replaceHandler fuel freshPass tt
      plainFile
    = Ok (plainFile, tt).
Proof.
  destruct (transform_untouched_without_import (λ _ c, c) replaceHandler
              replaceHandler freshPass tt plainFile)
    as [Hrun _].
  - reflexivity.
  - repeat constructor.
  - exact Hrun.
Defined.

(** * Further properties of the hoister *)

Lemma firstNonImport_None (l : list Statement) :
  firstNonImport l = None ↔ Forall (λ s, isImportDeclaration s = true) l.
Proof.
  induction l as [|s l IH]; cbn; [split; [constructor|done]|].
  destruct (isImportDeclaration s) eqn:E.
  - destruct (firstNonImport l) as [k|]; cbn.
    + split; [done|]. intros Hall. apply Forall_cons in Hall as [_ Hall].
      by apply IH in Hall.
    + split; [|done]. intros _. constructor; [done|]. by apply IH.
  - split; [done|]. intros Hall. apply Forall_cons in Hall as [Hs _].
    congruence.
Qed.

(** X1.  [hoistSheet] returns normally exactly when the sheet is already
    recorded or the body has a statement that is not an import; for a sheet
    that is not recorded in a body of imports only, the statement to insert
    before is [undefined] and the call throws a [TypeError]. *)
Theorem hoistSheet_returns_iff {Cache : Type} (sheet : string)
    (w : World Cache) :
  ((∃ r, hoistSheet sheet w = Ok r)
   ↔ is_Some (sheets (state w) !! sheet)
     ∨ ¬ Forall (λ s, isImportDeclaration s = true) (body (program w)))
  ∧ (sheets (state w) !! sheet = None →
     Forall (λ s, isImportDeclaration s = true) (body (program w)) →
     ∃ message, hoistSheet sheet w = Throw (TypeError message)).
Proof.
  rewrite <- firstNonImport_None.
  unfold hoistSheet, bind, get_state, generateUidIdentifier, get_program,
    put_program, insertBefore, set_sheet, put_state, ret, throw. cbn.
  destruct (sheets (state w) !! sheet) as [id|]; cbn.
  - split; [|done]. split; [intros _; left; by eexists|]. intros _. by eexists.
  - destruct (firstNonImport (body (program w))) as [k|]; cbn.
    + split; [|done]. split; [intros _; by right|]. intros _. by eexists.
    + split; [|intros _ _; by eexists].
      split; [by intros [r ?]|]. intros [[? ?]|?]; done.
Qed.

Lemma hoistSheet_returns_iff_witness :
  ∃ message, hoistSheet "a{}" importsOnlyWorld = Throw (TypeError message).
Proof.
  apply (hoistSheet_returns_iff "a{}" importsOnlyWorld).
  - reflexivity.
  - repeat constructor.
Defined.

Lemma hoistSheet_cases {Cache : Type} (sheet id : string) (w w' : World Cache) :
  hoistSheet sheet w = Ok (id, w') →
  (sheets (state w) !! sheet = Some id ∧ w' = w)
  ∨ (sheets (state w) !! sheet = None
     ∧ id = generateUid "" (program w)
     ∧ ∃ k, firstNonImport (body (program w)) = Some k
            ∧ w' = mkWorld
                     (mkState (compiledImports (state w))
                        (<[sheet := id]> (sheets (state w)))
                        (nonce (state w)) (cache (state w)))
                     (mkProgram
                        (splice_insert k (sheetConstant (sheet, id))
                           (body (program w)))
                        (bindings (program w))
                        ({[id]} ∪ taken (program w)))).
Proof.
  unfold hoistSheet, bind, get_state, generateUidIdentifier, get_program,
    put_program, insertBefore, set_sheet, put_state, ret, throw. cbn.
  destruct (sheets (state w) !! sheet) as [id0|]; cbn.
  - intros [= -> <-]. by left.
  - destruct (firstNonImport (body (program w))) as [k|]; cbn; [|done].
    intros [= <- <-]. right. split; [done|]. split; [done|]. by exists k.
Qed.

(** X2.  [hoistSheet] is idempotent in any state: once a call for a sheet
    has returned an identifier, a further call for that sheet returns the
    same identifier and changes neither the plugin state nor the program. *)
Theorem hoistSheet_idempotent {Cache : Type} (sheet id : string)
    (w w' : World Cache) :
  hoistSheet sheet w = Ok (id, w') → hoistSheet sheet w' = Ok (id, w').
Proof.
  intros [[Hhit ->]|(_ & _ & k & _ & ->)]%hoistSheet_cases.
  - by apply hoistSheet_hit.
  - apply hoistSheet_hit. cbn. by rewrite lookup_insert_eq.
Qed.

Lemma hoistSheet_idempotent_witness :
  ∃ w', hoistSheet "a{}" sampleWorld = Ok ("_", w')
        ∧ hoistSheet "a{}" w' = Ok ("_", w').
Proof.
  eexists. split; [vm_compute; reflexivity|].
  apply (hoistSheet_idempotent "a{}" "_" sampleWorld).
  vm_compute. reflexivity.
Defined.

(** X3.  What a successful [hoistSheet] leaves alone, in any state: every
    statement of the body stays, in order, and at most one is added; the
    imports in front of the first other statement stay where they are;
    [compiledImports], the nonce option, the cache slot and the bindings of
    the scope are unchanged; no name is freed and no recorded sheet is
    forgotten or given another identifier; and the sheet asked for is
    recorded with the identifier returned. *)
Theorem hoistSheet_frame {Cache : Type} (sheet id : string)
    (w w' : World Cache) :
  hoistSheet sheet w = Ok (id, w') →
  sublist (body (program w)) (body (program w'))
  ∧ length (body (program w')) ≤ S (length (body (program w)))
  ∧ (∀ k, firstNonImport (body (program w)) = Some k →
          take k (body (program w')) = take k (body (program w))
          ∧ firstNonImport (body (program w')) = Some k)
  ∧ compiledImports (state w') = compiledImports (state w)
  ∧ nonce (state w') = nonce (state w)
  ∧ cache (state w') = cache (state w)
  ∧ bindings (program w') = bindings (program w)
  ∧ taken (program w) ⊆ taken (program w')
  ∧ sheets (state w) ⊆ sheets (state w')
  ∧ sheets (state w') !! sheet = Some id.
Proof.
  intros [[Hhit ->]|(Hmiss & _ & k & Hk & ->)]%hoistSheet_cases.
  - repeat split; try done. lia.
  - cbn. split; [apply splice_insert_sublist|]. split.
    { unfold splice_insert. rewrite length_app. cbn.
      rewrite length_take, length_drop. lia. }
    split.
    { intros k' Hk'. rewrite Hk in Hk'. injection Hk' as <-.
      destruct (firstNonImport_Some _ _ Hk) as [Hall (s & Hs & Hnon)].
      assert (k ≤ length (body (program w)))
        by (apply lookup_lt_Some in Hs; lia).
      unfold splice_insert. split.
      - rewrite take_app_le by (rewrite length_take; lia).
        rewrite take_take. f_equal. lia.
      - rewrite firstNonImport_app by done.
        by rewrite length_take_le by done. }
    repeat split; try done.
    + set_solver.
    + by apply insert_subseteq.
    + by rewrite lookup_insert_eq.
Qed.

Lemma hoistSheet_frame_witness :
  ∃ w', hoistSheet "a{}" sampleWorld = Ok ("_", w')
        ∧ take 1 (body (program w')) = take 1 (body (program sampleWorld))
        ∧ bindings (program w') = bindings (program sampleWorld).
Proof.
  eexists. split; [vm_compute; reflexivity|].
  destruct (hoistSheet_frame "a{}" "_" sampleWorld _
              ltac:(vm_compute; reflexivity))
    as (_ & _ & Hprefix & _ & _ & _ & Hbindings & _).
  split; [|exact Hbindings]. by apply (Hprefix 1).
Defined.




Lemma hoistSheets_order {Cache : Type} (k : nat) (p0 : Program)
    (ss : list string) :
  ∀ (hoisted : list (string * string)) (w : World Cache),
    Hoisted k p0 hoisted w →
    ∃ ids w1 added,
      mapM hoistSheet ss w = Ok (ids, w1)
      ∧ Hoisted k p0 (added ++ hoisted) w1
      ∧ added.*1 = reverse (unique_from id (list_to_set hoisted.*1) ss).
Proof.
  induction ss as [|s ss IH]; intros hoisted w Hinv.
  - by exists [], w, [].
  - cbn [unique_from]. unfold id at 1.
    destruct (sheets (state w) !! s) as [i|] eqn:Hlook.
    + destruct (IH hoisted w Hinv) as (ids & w1 & added & Hrun & Hinv1 & Hord).
      exists (i :: ids), w1, added. split; [|split; [done|]].
      * cbn. unfold bind. rewrite (hoistSheet_hit s i w Hlook).
        fold (@mapM Cache). by rewrite Hrun.
      * rewrite decide_True; [done|]. apply elem_of_list_to_set.
        rewrite (hoisted_sheets _ _ _ _ Hinv) in Hlook.
        apply elem_of_list_to_map_2 in Hlook.
        apply list_elem_of_fmap. by exists (s, i).
    + destruct (hoistSheet_miss k p0 hoisted s w Hinv Hlook)
        as (Hstep & Hinv' & Hs & Hid).
      destruct (IH _ _ Hinv')
        as (ids & w1 & added & Hrun & Hinv1 & Hord).
      exists (generateUid "" (program w) :: ids), w1,
        (added ++ [(s, generateUid "" (program w))]).
      rewrite <- (assoc_L (++)). cbn [app].
      split; [|split; [done|]].
      * cbn. unfold bind. rewrite Hstep. fold (@mapM Cache). by rewrite Hrun.
      * rewrite decide_False by (by rewrite elem_of_list_to_set).
        rewrite fmap_app, Hord, reverse_cons. done.
Qed.

(** X5.  Starting from the state that [pre] leaves, the constants that a
    sequence of [hoistSheet] calls writes stand in the body in the reverse
    of the order in which their sheets were first asked for: the sheet
    hoisted last comes first, directly after the leading imports. *)
Theorem hoistSheet_latest_first {Cache : Type} (w0 : World Cache) (k : nat)
    (ss : list string) :
  sheets (state w0) = ∅ →
  firstNonImport (body (program w0)) = Some k →
  ∃ ids w1 hoisted,
    mapM hoistSheet ss w0 = Ok (ids, w1)
    ∧ body (program w1)
      = take k (body (program w0)) ++ (sheetConstant <$> hoisted)
        ++ drop k (body (program w0))
    ∧ hoisted.*1 = reverse (unique ss id).
Proof.
  intros Hempty Hfirst.
  assert (Hoisted k (program w0) [] w0) as Hinv0.
  { split; cbn; try done.
    - by rewrite take_drop.
    - constructor.
    - constructor.
    - by rewrite (left_id_L ∅ (∪)).
    - intros i Hi. by apply elem_of_nil in Hi. }
  destruct (hoistSheets_order k (program w0) ss [] w0 Hinv0)
    as (ids & w1 & hoisted & Hrun & Hinv1 & Hord).
  rewrite app_nil_r in Hinv1. exists ids, w1, hoisted.
  split; [done|]. split; [apply Hinv1|done].
Qed.

Lemma hoistSheet_latest_first_witness :
  ∃ ids w1 hoisted,
    mapM hoistSheet ["a{}"; "b{}"; "a{}"; "c{}"] sampleWorld = Ok (ids, w1)
    ∧ body (program w1)
      = take 1 (body (program sampleWorld)) ++ (sheetConstant <$> hoisted)
        ++ drop 1 (body (program sampleWorld))
    ∧ hoisted.*1 = ["c{}"; "b{}"; "a{}"].
Proof.
  destruct (hoistSheet_latest_first sampleWorld 1
              ["a{}"; "b{}"; "a{}"; "c{}"] eq_refl eq_refl)
    as (ids & w1 & hoisted & Hrun & Hbody & Hord).
  exists ids, w1, hoisted. split; [done|]. split; [done|].
  rewrite Hord. vm_compute. reflexivity.
Defined.

(** * Further properties of the emitter *)

(** X6.  [getPropValue] throws exactly for an empty JSX expression, bare or
    in an expression container, and always with the same error; in every
    other case it returns the expression of the container, or the node
    itself when it is not a container, and what it returns is never an
    empty JSX expression. *)
Theorem getPropValue_unwraps (node : Node) :
  match getPropValue node with
  | Ok value =>
      isJSXEmptyExpression value = false
      ∧ (node = JSXExpressionContainer value
         ∨ (node = value ∧ ∀ e, node ≠ JSXExpressionContainer e))
  | Throw e =>
      e = Error "Empty expression not supported."
      ∧ ∃ loc, node = JSXEmptyExpression loc
               ∨ node = JSXExpressionContainer (JSXEmptyExpression loc)
  | OutOfFuel => False
  end.
Proof.
  unfold getPropValue.
  destruct node as [| | | | | | | | | | | |expression|loc|];
    try (cbn; split; [done|]; right; by split).
  - destruct expression; cbn;
      try (split; [done|]; by left).
    split; [done|]. eexists. by right.
  - cbn. split; [done|]. eexists. by left.
Qed.

Lemma otherAttributes_insert (attributes : list (JSXAttr Node)) (i : nat)
    (a b : JSXAttr Node) :
  attributes !! i = Some a →
  isClassNameOrStyle a = true → isClassNameOrStyle b = true →
  otherAttributes (<[i := b]> attributes) = otherAttributes attributes.
Proof.
  unfold otherAttributes. revert i.
  induction attributes as [|x l IH]; intros i Hi Ha Hb; [done|].
  destruct i as [|i]; cbn in Hi.
  - injection Hi as ->. change (<[0:=b]> (a :: l)) with (b :: l).
    rewrite (filter_cons_False _ b) by (by rewrite Hb).
    by rewrite (filter_cons_False _ a) by (by rewrite Ha).
  - change (<[S i:=b]> (x :: l)) with (x :: <[i:=b]> l).
    rewrite !filter_cons. by rewrite (IH i).
Qed.

Lemma otherAttributes_delete (attributes : list (JSXAttr Node)) (i : nat)
    (a : JSXAttr Node) :
  attributes !! i = Some a → isClassNameOrStyle a = true →
  otherAttributes (delete i attributes) = otherAttributes attributes.
Proof.
  unfold otherAttributes. revert i.
  induction attributes as [|x l IH]; intros i Hi Ha; [done|].
  destruct i as [|i]; cbn in Hi.
  - injection Hi as ->. change (delete 0 (a :: l)) with l.
    by rewrite (filter_cons_False _ a) by (by rewrite Ha).
  - change (delete (S i) (x :: l)) with (x :: delete i l).
    rewrite !filter_cons. by rewrite (IH i).
Qed.

Lemma otherAttributes_snoc (attributes : list (JSXAttr Node))
    (b : JSXAttr Node) :
  isClassNameOrStyle b = true →
  otherAttributes (attributes ++ [b]) = otherAttributes attributes.
Proof.
  intros Hb. unfold otherAttributes. rewrite filter_app.
  rewrite (filter_cons_False _ b) by (by rewrite Hb).
  by rewrite filter_nil, app_nil_r.
Qed.

Lemma classNameAttributes_keeps (classNames : list string)
    (attributes attributes1 : list (JSXAttr Node)) :
  classNameAttributes classNames attributes = Ok attributes1 →
  otherAttributes attributes1 = otherAttributes attributes
  ∧ ∃ value, JSXAttribute "className" (Some value) ∈ attributes1.
Proof.
  unfold classNameAttributes.
  destruct (findAttribute "className" attributes) as [[i [v|]]|] eqn:E.
  - destruct (getPropValue v); [|done..]. intros [= <-].
    apply findAttribute_lookup in E. split.
    + by eapply otherAttributes_insert.
    + eexists. eapply list_elem_of_lookup_2.
      apply list_lookup_insert_eq. by eapply lookup_lt_Some.
  - intros [= <-]. split; [by apply otherAttributes_snoc|].
    eexists. apply elem_of_app. right. by left.
  - intros [= <-]. split; [by apply otherAttributes_snoc|].
    eexists. apply elem_of_app. right. by left.
Qed.

Lemma styleAttributes_keeps (variables : list CssVariable)
    (attributes : list (JSXAttr Node)) (value : Node) :
  otherAttributes (styleAttributes variables attributes)
  = otherAttributes attributes
  ∧ (JSXAttribute "className" (Some value) ∈ attributes →
     JSXAttribute "className" (Some value)
     ∈ styleAttributes variables attributes).
Proof.
  unfold styleAttributes. destruct variables as [|v vs]; [done|].
  destruct (findAttribute "style" attributes) as [[i u]|] eqn:E.
  - apply findAttribute_lookup in E. split.
    + rewrite otherAttributes_snoc by done. by eapply otherAttributes_delete.
    + intros Hin. apply elem_of_app. left.
      apply list_elem_of_lookup in Hin as [j Hj].
      destruct (decide (j = i)) as [->|Hne]; [congruence|].
      destruct (decide (j < i)).
      * apply (list_elem_of_lookup_2 _ j). by rewrite list_lookup_delete_lt.
      * apply (list_elem_of_lookup_2 _ (pred j)).
        rewrite list_lookup_delete_ge by lia.
        by replace (S (pred j)) with j by lia.
  - split; [by apply otherAttributes_snoc|].
    intros Hin. apply elem_of_app. by left.
Qed.

(** X7.  When [buildCompiledComponent] returns for an element, the result
    wraps an element with the same name and the same children whose
    attributes other than [className] and [style], spread attributes
    included, are those of the original in the original order; and the
    emitted element has a [className] attribute with a value. *)
Theorem buildCompiledComponent_keeps_other_attributes {Cache : Type}
    (transformCss : string → TransformCssResult) (name : Node)
    (attributes : list (JSXAttr Node)) (children : list Node)
    (cssOutput : CSSOutput) (w w' : World Cache) (result : Node) :
  buildCompiledComponent transformCss (JSXElement name attributes children)
    cssOutput w = Ok (result, w') →
  ∃ cs attributes2,
    result
    = JSXElement (Identifier "CC") []
        [cs; JSXExpressionContainer (JSXElement name attributes2 children)]
    ∧ otherAttributes attributes2 = otherAttributes attributes
    ∧ ∃ value, JSXAttribute "className" (Some value) ∈ attributes2.
Proof.
  unfold buildCompiledComponent, bind, lift.
  destruct (classNameAttributes _ attributes) as [attributes1| |] eqn:Hclass;
    [|done..].
  destruct (classNameAttributes_keeps _ _ _ Hclass) as [Hother [value Hin]].
  unfold compiledTemplate, nonceAttribute, bind, get_state, ret. cbn.
  destruct (mapM hoistSheet _ w) as [[ids w1]| |]; [|done..].
  intros [= <- <-]. eexists _, _. split; [done|].
  destruct (styleAttributes_keeps (variables cssOutput) attributes1 value)
    as [Hstyle Hkeep].
  split; [congruence|]. exists value. by apply Hkeep.
Qed.

Lemma buildCompiledComponent_keeps_other_attributes_witness :
  ∃ cs attributes2 w',
    buildCompiledComponent sampleTransformCss busyDiv sampleOutput sampleWorld
    = Ok (JSXElement (Identifier "CC") []
            [cs;
             JSXExpressionContainer
               (JSXElement (Identifier "div") attributes2 [JSXText "hello"])],
          w')
    ∧ otherAttributes attributes2
      = [JSXAttribute "id" (Some (StringLiteral "a"));
         JSXSpreadAttribute (Identifier "rest");
         JSXAttribute "title" (Some (StringLiteral "t"))].
Proof.
  destruct (buildCompiledComponent_keeps_other_attributes sampleTransformCss
              (Identifier "div")
              [JSXAttribute "id" (Some (StringLiteral "a"));
               JSXSpreadAttribute (Identifier "rest");
               jsxExpressionAttribute "style" (Identifier "base");
               JSXAttribute "className" (Some (StringLiteral "b"));
               JSXAttribute "title" (Some (StringLiteral "t"))]
              [JSXText "hello"] sampleOutput sampleWorld _ _
              ltac:(vm_compute; reflexivity))
    as (cs & attributes2 & Hresult & Hother & _).
  injection Hresult as <- <-.
  eexists _, _, _. split; [vm_compute; reflexivity|reflexivity].
Defined.

Lemma buildCssVariablesProp_identity (variables : list CssVariable) :
  (buildCssVariablesProp variables identityTransform tt).1
  = variableAssignments variables.
Proof.
  unfold buildCssVariablesProp, identityTransform, variableAssignments. cbn.
  by rewrite (map_acc_pure
    (λ v, ObjectProperty (StringLiteral (var_name v)) (var_expression v))).
Qed.

(** X8.  For a css-prop call site with at least one variable whose element
    has a [style] attribute holding an expression that is not an object
    expression, the attribute is removed and a new [style] attribute is
    pushed last whose object spreads that expression first and then holds
    the CSS-variable assignments in their order. *)
Theorem buildCompiledComponent_spreads_style {Cache : Type}
    (transformCss : string → TransformCssResult) (name : Node)
    (attributes : list (JSXAttr Node)) (children : list Node)
    (cssOutput : CSSOutput) (w w' : World Cache)
    (attributes1 : list (JSXAttr Node)) (ids : list string)
    (i : nat) (expression : Node) :
  classNameAttributes (css_classNames (transformCss (css cssOutput)))
    attributes = Ok attributes1 →
  mapM hoistSheet (css_sheets (transformCss (css cssOutput))) w
    = Ok (ids, w') →
  variables cssOutput ≠ [] →
  findAttribute "style" attributes
  = Some (i, Some (JSXExpressionContainer expression)) →
  isJSXEmptyExpression expression = false →
  (∀ properties, expression ≠ ObjectExpression properties) →
  buildCompiledComponent transformCss (JSXElement name attributes children)
    cssOutput w
  = Ok (JSXElement (Identifier "CC") []
          [csElement (nonceAttributeOf (nonce (state w))) ids;
           JSXExpressionContainer
             (JSXElement name
                (delete i attributes1
                 ++ [jsxExpressionAttribute "style"
                       (ObjectExpression
                          (SpreadElement expression
                           :: variableAssignments (variables cssOutput)))])
                children)],
        w').
Proof.
  intros Hclass Hhoist Hv Hfind Hempty Hobject.
  erewrite buildCompiledComponent_run by done.
  rewrite (styleAttributes_style _ _ i
             (Some (JSXExpressionContainer expression))); [|done|].
  2:{ by erewrite classNameAttributes_style by done. }
  rewrite buildCssVariablesProp_identity. cbn [mergedStyleProperties].
  destruct expression; try done. by destruct (Hobject properties).
Qed.

Lemma buildCompiledComponent_spreads_style_witness :
  ∃ w',
    buildCompiledComponent sampleTransformCss busyDiv sampleOutput sampleWorld
    = Ok (JSXElement (Identifier "CC") []
            [csElement [] ["_"];
             JSXExpressionContainer
               (JSXElement (Identifier "div")
                  [JSXAttribute "id" (Some (StringLiteral "a"));
                   JSXSpreadAttribute (Identifier "rest");
                   jsxExpressionAttribute "className"
                     (axCall [StringLiteral "_1x"; StringLiteral "b"]);
                   JSXAttribute "title" (Some (StringLiteral "t"));
                   jsxExpressionAttribute "style"
                     (ObjectExpression
                        [SpreadElement (Identifier "base");
                         ObjectProperty (StringLiteral "--color")
                           (Identifier "color")])]
                  [JSXText "hello"])],
          w').
Proof.
  eexists.
  apply (buildCompiledComponent_spreads_style sampleTransformCss
           (Identifier "div") _ [JSXText "hello"] sampleOutput sampleWorld _
           [JSXAttribute "id" (Some (StringLiteral "a"));
            JSXSpreadAttribute (Identifier "rest");
            jsxExpressionAttribute "style" (Identifier "base");
            jsxExpressionAttribute "className"
              (axCall [StringLiteral "_1x"; StringLiteral "b"]);
            JSXAttribute "title" (Some (StringLiteral "t"))]
           ["_"] 2 (Identifier "base")).
  - reflexivity.
  - vm_compute. reflexivity.
  - discriminate.
  - reflexivity.
  - reflexivity.
  - discriminate.
Defined.

(** X9.  For a css-prop call site with at least one variable, a [style]
    attribute whose value is not a non-empty expression in braces (no
    value, a string literal, or empty braces) is removed and its value is
    discarded without an error: the new [style] attribute, pushed last,
    holds the CSS-variable assignments only.  Without a [style] attribute
    nothing is removed and the same new attribute is pushed. *)
Theorem buildCompiledComponent_discards_style {Cache : Type}
    (transformCss : string → TransformCssResult) (name : Node)
    (attributes : list (JSXAttr Node)) (children : list Node)
    (cssOutput : CSSOutput) (w w' : World Cache)
    (attributes1 : list (JSXAttr Node)) (ids : list string) :
  classNameAttributes (css_classNames (transformCss (css cssOutput)))
    attributes = Ok attributes1 →
  mapM hoistSheet (css_sheets (transformCss (css cssOutput))) w
    = Ok (ids, w') →
  variables cssOutput ≠ [] →
  match findAttribute "style" attributes with
  | Some (_, Some (JSXExpressionContainer expression)) =>
      isJSXEmptyExpression expression = true
  | _ => True
  end →
  buildCompiledComponent transformCss (JSXElement name attributes children)
    cssOutput w
  = Ok (JSXElement (Identifier "CC") []
          [csElement (nonceAttributeOf (nonce (state w))) ids;
           JSXExpressionContainer
             (JSXElement name
                (match findAttribute "style" attributes with
                 | Some (i, _) => delete i attributes1
                 | None => attributes1
                 end
                 ++ [jsxExpressionAttribute "style"
                       (ObjectExpression
                          (variableAssignments (variables cssOutput)))])
                children)],
        w').
Proof.
  intros Hclass Hhoist Hv Hvalue.
  erewrite buildCompiledComponent_run by done. do 4 f_equal.
  unfold styleAttributes. destruct (variables cssOutput) as [|v vs] eqn:E;
    [done|].
  rewrite <- E, buildCssVariablesProp_identity.
  erewrite classNameAttributes_style by done.
  destruct (findAttribute "style" attributes) as [[i value]|]; [|done].
  destruct value as [value|]; [|done].
  destruct value; try done. by destruct value.
Qed.

Lemma buildCompiledComponent_discards_style_witness :
  ∃ w',
    buildCompiledComponent sampleTransformCss
      (JSXElement (Identifier "div")
         [JSXAttribute "style" (Some (StringLiteral "margin: 0"))] [])
      sampleOutput sampleWorld
    = Ok (JSXElement (Identifier "CC") []
            [csElement [] ["_"];
             JSXExpressionContainer
               (JSXElement (Identifier "div")
                  [jsxExpressionAttribute "className"
                     (axCall [StringLiteral "_1x"]);
                   jsxExpressionAttribute "style"
                     (ObjectExpression
                        [ObjectProperty (StringLiteral "--color")
                           (Identifier "color")])]
                  [])],
          w').
Proof.
  eexists.
  apply (buildCompiledComponent_discards_style sampleTransformCss
           (Identifier "div")
           [JSXAttribute "style" (Some (StringLiteral "margin: 0"))] []
           sampleOutput sampleWorld _
           [JSXAttribute "style" (Some (StringLiteral "margin: 0"));
            jsxExpressionAttribute "className" (axCall [StringLiteral "_1x"])]
           ["_"]).
  - reflexivity.
  - vm_compute. reflexivity.
  - discriminate.
  - exact I.
Defined.

(** * Further properties of the styled visitor *)

Section PushFacts.
Variable isPropValid : string → bool.

Lemma pushAll_app (acc F G : list string) :
  pushAll isPropValid acc (F ++ G)
  = pushAll isPropValid (pushAll isPropValid acc F) G.
Proof. apply foldl_app. Qed.

Lemma Pushes_seq {A1 A2 B1 B2 : Type}
    (f : A1 → list string → B1 * list string)
    (g : A2 → list string → B2 * list string)
    (F : A1 → list string) (G : A2 → list string) (a1 : A1) (a2 : A2)
    (acc : list string) :
  Pushes isPropValid f F a1 → Pushes isPropValid g G a2 →
  (g a2 (f a1 acc).2).2 = pushAll isPropValid acc (F a1 ++ G a2).
Proof. intros Hf Hg. by rewrite Hg, Hf, pushAll_app. Qed.

Lemma map_acc_Pushes {A B : Type} (f : A → list string → B * list string)
    (F : A → list string) (l : list A) :
  Forall (Pushes isPropValid f F) l →
  Pushes isPropValid (map_acc f) (flat_map F) l.
Proof.
  induction 1 as [|a l Ha _ IH]; intros acc; [done|].
  assert ((map_acc f (a :: l) acc).2 = (map_acc f l (f a acc).2).2) as ->.
  { cbn. destruct (f a acc) as [b s1]. cbn. by destruct (map_acc f l s1). }
  rewrite IH, Ha. change (flat_map F (a :: l)) with (F a ++ flat_map F l).
  by rewrite pushAll_app.
Qed.

Lemma visit_option_Pushes (f : Node → list string → Node * list string)
    (F : Node → list string) (o : option Node) :
  option_Forall (Pushes isPropValid f F) o →
  Pushes isPropValid (visit_option f) (collect_option F) o.
Proof.
  destruct o as [n|]; cbn; intros Hn acc; [|done].
  cbn. specialize (Hn acc). by destruct (f n acc).
Qed.

Lemma visit_member_Pushes (f : Node → list string → Node * list string)
    (F : Node → list string) (m : ObjectMember Node) :
  member_Forall (Pushes isPropValid f F) m →
  Pushes isPropValid (visit_member f) (collect_member F) m.
Proof.
  destruct m as [key value|argument|kind key params body]; cbn.
  - intros [Hk Hv] acc. cbn.
    pose proof (Pushes_seq f f F F key value acc Hk Hv) as H.
    destruct (f key acc) as [k s1]. cbn in *. by destruct (f value s1).
  - intros Ha acc. cbn. specialize (Ha acc). by destruct (f argument acc).
  - intros [Hk Hb] acc. cbn.
    pose proof (Pushes_seq f f F F key body acc Hk Hb) as H.
    destruct (f key acc) as [k s1]. cbn in *. by destruct (f body s1).
Qed.

Lemma visit_attribute_Pushes (f : Node → list string → Node * list string)
    (F : Node → list string) (a : JSXAttr Node) :
  attribute_Forall (Pushes isPropValid f F) a →
  Pushes isPropValid (visit_attribute f) (collect_attribute F) a.
Proof.
  destruct a as [name value|argument]; cbn.
  - intros Hv acc. cbn.
    pose proof (visit_option_Pushes f F value Hv acc) as H.
    by destruct (visit_option f value acc).
  - intros Ha acc. cbn. specialize (Ha acc). by destruct (f argument acc).
Qed.

Lemma visit_pattern_Pushes (f : Node → list string → Node * list string)
    (F : Node → list string) (p : Pattern Node) :
  pattern_Forall (Pushes isPropValid f F) p →
  Pushes isPropValid (visit_pattern f) (collect_pattern F) p.
Proof.
  destruct p as [name|properties rest]; cbn; intros Hp acc; [done|].
  assert (Forall (Pushes isPropValid (visit_pattern_property f)
                    (λ q, collect_option F (pat_default q))) properties)
    as Hq.
  { eapply Forall_impl; [exact Hp|]. intros q Hq s.
    unfold visit_pattern_property.
    pose proof (visit_option_Pushes f F (pat_default q) Hq s) as H0.
    by destruct (visit_option f (pat_default q) s). }
  pose proof (map_acc_Pushes _ _ properties Hq acc) as H. cbn.
  by destruct (map_acc (visit_pattern_property f) properties acc).
Qed.
End PushFacts.

Section NestedVisitorFacts.
Variable isPropValid : string → bool.

Lemma nestedVisitor_Pushes (n : Node) :
  Pushes isPropValid (nestedVisitor isPropValid) propsAccesses n.
Proof.
  induction n using Node_nested_ind; intros acc;
    cbn [nestedVisitor propsAccesses].
  - done.
  - done.
  - done.
  - destruct n; try (specialize (IHn acc);
      destruct (nestedVisitor isPropValid _ acc); exact IHn).
    case_decide; [|done]. cbn. unfold pushName.
    by destruct (isPropValid property).
  - assert (Forall (Pushes isPropValid
                      (visit_pattern (nestedVisitor isPropValid))
                      (collect_pattern propsAccesses)) params) as Hp.
    { eapply Forall_impl; [exact H|]. apply visit_pattern_Pushes. }
    pose proof (Pushes_seq isPropValid _ _ _ _ params n acc
                  (map_acc_Pushes isPropValid _ _ params Hp) IHn) as Hseq.
    destruct (map_acc _ params acc) as [? acc1]. cbn in *.
    by destruct (nestedVisitor isPropValid n acc1).
  - pose proof (Pushes_seq isPropValid _ _ _ _ n1 n2 acc IHn1 IHn2) as Hseq.
    destruct (nestedVisitor isPropValid n1 acc) as [? a1]. cbn in *.
    by destruct (nestedVisitor isPropValid n2 a1).
  - specialize (IHn1 acc).
    destruct (nestedVisitor isPropValid n1 acc) as [? a1]. cbn in *.
    pose proof (Pushes_seq isPropValid _ _ _ _ n2 n3 a1 IHn2 IHn3) as Hseq.
    destruct (nestedVisitor isPropValid n2 a1) as [? a2]. cbn in *.
    destruct (nestedVisitor isPropValid n3 a2) as [? a3]. cbn in *.
    by rewrite pushAll_app, <- IHn1.
  - pose proof (Pushes_seq isPropValid _ _ _ _ n arguments acc IHn
                  (map_acc_Pushes isPropValid _ _ arguments H)) as Hseq.
    destruct (nestedVisitor isPropValid n acc) as [? a1]. cbn in *.
    by destruct (map_acc _ arguments a1).
  - pose proof (Pushes_seq isPropValid _ _ _ _ n expressions acc IHn
                  (map_acc_Pushes isPropValid _ _ expressions H)) as Hseq.
    destruct (nestedVisitor isPropValid n acc) as [? a1]. cbn in *.
    by destruct (map_acc _ expressions a1).
  - assert (Forall (Pushes isPropValid
                      (visit_member (nestedVisitor isPropValid))
                      (collect_member propsAccesses)) properties) as Hm.
    { eapply Forall_impl; [exact H|]. apply visit_member_Pushes. }
    pose proof (map_acc_Pushes isPropValid _ _ properties Hm acc) as Hp.
    by destruct (map_acc _ properties acc).
  - assert (Forall (Pushes isPropValid
                      (visit_option (nestedVisitor isPropValid))
                      (collect_option propsAccesses)) elements) as Ho.
    { eapply Forall_impl; [exact H|]. apply visit_option_Pushes. }
    pose proof (map_acc_Pushes isPropValid _ _ elements Ho acc) as Hp.
    by destruct (map_acc _ elements acc).
  - assert (Forall (Pushes isPropValid
                      (visit_attribute (nestedVisitor isPropValid))
                      (collect_attribute propsAccesses)) attributes) as Ha.
    { eapply Forall_impl; [exact H|]. apply visit_attribute_Pushes. }
    pose proof (Pushes_seq isPropValid _ _ _ _ attributes children acc
                  (map_acc_Pushes isPropValid _ _ attributes Ha)
                  (map_acc_Pushes isPropValid _ _ children H0)) as Hseq.
    destruct (map_acc _ attributes acc) as [? a1]. cbn in *.
    by destruct (map_acc _ children a1).
  - specialize (IHn acc). by destruct (nestedVisitor isPropValid n acc).
  - done.
  - done.
Qed.

(** X10.  The names that the traversal of an arrow function leaves in
    [propsToDestructure] are exactly what pushing the names of its accesses
    [props.x] one by one in source order gives: a name goes to the end of
    the array when it is not a valid attribute and not in the array yet,
    and nothing else changes the array. *)
Theorem traverseStyledArrowFunctionExpression_names (node : Node)
    (propsToDestructure : list string) :
  (traverseStyledArrowFunctionExpression isPropValid node
     propsToDestructure).2
  = pushAll isPropValid propsToDestructure (propsAccesses node).
Proof.
  unfold traverseStyledArrowFunctionExpression.
  pose proof (nestedVisitor_Pushes node propsToDestructure) as H.
  by destruct (nestedVisitor isPropValid node propsToDestructure).
Qed.
End NestedVisitorFacts.

Section KeepFacts.
Context {S : Type}.

Lemma map_acc_Keeps {A : Type} (f : A → S → A * S) (l : list A) :
  Forall (Keeps f) l → Keeps (map_acc f) l.
Proof.
  induction 1 as [|a l Ha _ IH]; intros s; [done|].
  cbn. by rewrite Ha, IH.
Qed.

Lemma visit_option_Keeps (f : Node → S → Node * S) (o : option Node) :
  option_Forall (Keeps f) o → Keeps (visit_option f) o.
Proof. destruct o; cbn; intros H s; [|done]. cbn. by rewrite H. Qed.

Lemma visit_member_Keeps (f : Node → S → Node * S) (m : ObjectMember Node) :
  member_Forall (Keeps f) m → Keeps (visit_member f) m.
Proof.
  destruct m; cbn.
  - intros [H1 H2] s. cbn. by rewrite H1, H2.
  - intros H1 s. cbn. by rewrite H1.
  - intros [H1 H2] s. cbn. by rewrite H1, H2.
Qed.

Lemma visit_attribute_Keeps (f : Node → S → Node * S) (a : JSXAttr Node) :
  attribute_Forall (Keeps f) a → Keeps (visit_attribute f) a.
Proof.
  destruct a; cbn.
  - intros H%visit_option_Keeps s. cbn. by rewrite H.
  - intros H s. cbn. by rewrite H.
Qed.

Lemma visit_pattern_Keeps (f : Node → S → Node * S) (p : Pattern Node) :
  pattern_Forall (Keeps f) p → Keeps (visit_pattern f) p.
Proof.
  destruct p as [name|properties rest]; cbn; intros Hp s; [done|].
  cbn. rewrite (map_acc_Keeps (visit_pattern_property f) properties); [done|].
  eapply Forall_impl; [exact Hp|]. intros q Hq%visit_option_Keeps s0.
  unfold visit_pattern_property. rewrite Hq. by destruct q.
Qed.
End KeepFacts.

Lemma Forall_flat_map {A B} (P : B → Prop) (F : A → list B) (l : list A) :
  Forall P (flat_map F l) ↔ Forall (λ a, Forall P (F a)) l.
Proof.
  induction l as [|a l IH]; cbn; [split; constructor|].
  rewrite Forall_app, Forall_cons, IH. done.
Qed.

Lemma Forall_implies {A} (Q R : A → Prop) (l : list A) :
  Forall (λ a, Q a → R a) l → Forall Q l → Forall R l.
Proof.
  induction 1 as [|a l Ha _ IH]; [constructor|].
  intros [? ?]%Forall_cons. constructor; auto.
Qed.

Section ForallFacts.
Variables C K : Node → Prop.

Lemma option_Forall_mp (o : option Node) :
  option_Forall (λ n, C n → K n) o → option_Forall C o → option_Forall K o.
Proof. destruct o; cbn; auto. Qed.

Lemma member_Forall_mp (m : ObjectMember Node) :
  member_Forall (λ n, C n → K n) m → member_Forall C m → member_Forall K m.
Proof. destruct m; cbn; intuition. Qed.

Lemma attribute_Forall_mp (a : JSXAttr Node) :
  attribute_Forall (λ n, C n → K n) a → attribute_Forall C a →
  attribute_Forall K a.
Proof. destruct a; cbn; [apply option_Forall_mp|auto]. Qed.

Lemma pattern_Forall_mp (p : Pattern Node) :
  pattern_Forall (λ n, C n → K n) p → pattern_Forall C p →
  pattern_Forall K p.
Proof.
  destruct p; cbn; [done|]. intros H1 H2.
  eapply Forall_implies; [|exact H2].
  eapply Forall_impl; [exact H1|]. intros q. apply option_Forall_mp.
Qed.
End ForallFacts.

Section ValidFacts.
Variable isPropValid : string → bool.
Variable F : Node → list string.

Lemma collect_option_valid (o : option Node) :
  Forall (λ x, isPropValid x = true) (collect_option F o) →
  option_Forall (λ n, Forall (λ x, isPropValid x = true) (F n)) o.
Proof. by destruct o. Qed.

Lemma collect_member_valid (m : ObjectMember Node) :
  Forall (λ x, isPropValid x = true) (collect_member F m) →
  member_Forall (λ n, Forall (λ x, isPropValid x = true) (F n)) m.
Proof. destruct m; cbn; rewrite ?Forall_app; done. Qed.

Lemma collect_attribute_valid (a : JSXAttr Node) :
  Forall (λ x, isPropValid x = true) (collect_attribute F a) →
  attribute_Forall (λ n, Forall (λ x, isPropValid x = true) (F n)) a.
Proof. destruct a; cbn; [apply collect_option_valid|done]. Qed.

Lemma collect_pattern_valid (p : Pattern Node) :
  Forall (λ x, isPropValid x = true) (collect_pattern F p) →
  pattern_Forall (λ n, Forall (λ x, isPropValid x = true) (F n)) p.
Proof.
  destruct p; cbn; [done|]. rewrite Forall_flat_map. intros H.
  eapply Forall_impl; [exact H|]. intros q. apply collect_option_valid.
Qed.
End ValidFacts.

Section UnchangedFacts.
Variable isPropValid : string → bool.
Variable stopEndsTraversal : bool.

Lemma nestedVisitor_valid_Keeps (n : Node) :
  Forall (λ x, isPropValid x = true) (propsAccesses n) →
  Keeps (nestedVisitor isPropValid) n.
Proof.
  induction n using Node_nested_ind; cbn [propsAccesses];
    rewrite ?Forall_app, ?Forall_flat_map; intros Hvalid acc;
    cbn [nestedVisitor].
  - done.
  - done.
  - done.
  - destruct n; try (by rewrite (IHn Hvalid)).
    case_decide; [|done]. apply Forall_cons in Hvalid as [-> _]. done.
  - destruct Hvalid as [Hparams Hbody].
    rewrite (map_acc_Keeps (visit_pattern (nestedVisitor isPropValid)) params).
    + by rewrite (IHn Hbody).
    + eapply Forall_impl; [|intros p; apply visit_pattern_Keeps].
      eapply Forall_implies; [|exact Hparams].
      eapply Forall_impl; [exact H|]. intros p Hp Hv.
      eapply pattern_Forall_mp; [exact Hp|].
      by apply collect_pattern_valid.
  - destruct Hvalid as [H1 H2]. by rewrite (IHn1 H1), (IHn2 H2).
  - destruct Hvalid as (H1 & H2 & H3).
    by rewrite (IHn1 H1), (IHn2 H2), (IHn3 H3).
  - destruct Hvalid as [H1 H2]. rewrite (IHn H1).
    rewrite (map_acc_Keeps (nestedVisitor isPropValid) arguments); [done|].
    exact (Forall_implies _ _ _ H H2).
  - destruct Hvalid as [H1 H2]. rewrite (IHn H1).
    rewrite (map_acc_Keeps (nestedVisitor isPropValid) expressions); [done|].
    exact (Forall_implies _ _ _ H H2).
  - rewrite (map_acc_Keeps (visit_member (nestedVisitor isPropValid))
               properties); [done|].
    eapply Forall_impl; [|intros m; apply visit_member_Keeps].
    eapply Forall_implies; [|exact Hvalid].
    eapply Forall_impl; [exact H|]. intros m Hm Hv.
    eapply member_Forall_mp; [exact Hm|]. by apply collect_member_valid.
  - rewrite (map_acc_Keeps (visit_option (nestedVisitor isPropValid))
               elements); [done|].
    eapply Forall_impl; [|intros o; apply visit_option_Keeps].
    eapply Forall_implies; [|exact Hvalid].
    eapply Forall_impl; [exact H|]. intros o Ho Hv.
    eapply option_Forall_mp; [exact Ho|]. by apply collect_option_valid.
  - destruct Hvalid as [H1 H2].
    rewrite (map_acc_Keeps (visit_attribute (nestedVisitor isPropValid))
               attributes).
    + rewrite (map_acc_Keeps (nestedVisitor isPropValid) children); [done|].
      exact (Forall_implies _ _ _ H0 H2).
    + eapply Forall_impl; [|intros a; apply visit_attribute_Keeps].
      eapply Forall_implies; [|exact H1].
      eapply Forall_impl; [exact H|]. intros a Ha Hv.
      eapply attribute_Forall_mp; [exact Ha|].
      by apply collect_attribute_valid.
  - by rewrite (IHn Hvalid).
  - done.
  - done.
Qed.

(** X11.  A variable whose expression is an arrow function that reads only
    valid HTML attributes from [props], or nothing at all, is emitted as the
    body of the arrow function exactly as written, and no name is added to
    [propsToDestructure]. *)
Theorem styledTransform_valid_accesses_unchanged
    (params : list (Pattern Node)) (body : Node)
    (propsToDestructure : list string) :
  Forall (λ x, isPropValid x = true)
    (propsAccesses (ArrowFunctionExpression params body)) →
  styledTransform isPropValid stopEndsTraversal
    (ArrowFunctionExpression params body) propsToDestructure
  = (body, propsToDestructure).
Proof.
  intros Hvalid. cbn [styledTransform].
  unfold traverseStyledArrowFunctionExpression.
  by rewrite (nestedVisitor_valid_Keeps _ Hvalid).
Qed.
End UnchangedFacts.

Lemma styledTransform_valid_accesses_unchanged_witness :
  styledTransform sampleIsPropValid true
    (ArrowFunctionExpression [PIdentifier "props"]
       (ConditionalExpression (MemberExpression (Identifier "props") "href")
          (StringLiteral "blue") (StringLiteral "black")))
    ["fonty"]
  = (ConditionalExpression (MemberExpression (Identifier "props") "href")
       (StringLiteral "blue") (StringLiteral "black"),
     ["fonty"]).
Proof.
  apply styledTransform_valid_accesses_unchanged.
  repeat constructor.
Defined.

Lemma orElse_None {A} (x y : option A) :
  orElse x y = None ↔ x = None ∧ y = None.
Proof. destruct x; cbn; [split; [done|by intros [? _]]|tauto]. Qed.

Lemma firstOf_None {A B} (F : A → option B) (l : list A) :
  firstOf F l = None ↔ Forall (λ a, F a = None) l.
Proof.
  induction l as [|a l IH]; cbn; [split; [constructor|done]|].
  rewrite orElse_None, Forall_cons. unfold firstOf in IH. by rewrite IH.
Qed.

Lemma first_option_None {B} (F : Node → option B) (o : option Node) :
  first_option F o = None → option_Forall (λ n, F n = None) o.
Proof. by destruct o. Qed.

Lemma first_member_None {B} (F : Node → option B) (m : ObjectMember Node) :
  first_member F m = None → member_Forall (λ n, F n = None) m.
Proof. destruct m; cbn; rewrite ?orElse_None; done. Qed.

Lemma first_attribute_None {B} (F : Node → option B) (a : JSXAttr Node) :
  first_attribute F a = None → attribute_Forall (λ n, F n = None) a.
Proof. destruct a as [name [value|]|argument]; done. Qed.

Section BinaryFacts.
Variable isPropValid : string → bool.
Variable stopEndsTraversal : bool.

Lemma arrowVisitor_stopped (n : Node) (acc : list string) :
  arrowVisitor isPropValid stopEndsTraversal n (acc, true) = (n, (acc, true)).
Proof. by destruct n. Qed.

Lemma visitChild_Keeps {A : Type}
    (f : A → list string * bool → A * (list string * bool)) (a : A) :
  Keeps f a → Keeps (visitChild stopEndsTraversal f) a.
Proof.
  intros H [acc stopped]. unfold visitChild. cbn [snd].
  destruct stopped; [done|]. by rewrite H.
Qed.

Lemma arrowVisitor_none_Keeps (n : Node) :
  firstArrow n = None → Keeps (arrowVisitor isPropValid stopEndsTraversal) n.
Proof.
  set (visit := arrowVisitor isPropValid stopEndsTraversal).
  induction n using Node_nested_ind; cbn [firstArrow];
    rewrite ?orElse_None, ?firstOf_None; intros Hnone [acc stopped];
    (destruct stopped; [apply arrowVisitor_stopped|]); subst visit;
    cbn [arrowVisitor fst snd];
    set (visit := arrowVisitor isPropValid stopEndsTraversal) in *.
  - done.
  - done.
  - done.
  - by rewrite (IHn Hnone).
  - done.
  - destruct Hnone as [H1 H2]. by rewrite (IHn1 H1), (IHn2 H2).
  - destruct Hnone as (H1 & H2 & H3).
    by rewrite (IHn1 H1), (IHn2 H2), (IHn3 H3).
  - destruct Hnone as [H1 H2]. rewrite (IHn H1).
    rewrite (map_acc_Keeps visit arguments); [done|].
    exact (Forall_implies _ _ _ H H2).
  - destruct Hnone as [H1 H2]. rewrite (IHn H1).
    rewrite (map_acc_Keeps visit expressions); [done|].
    exact (Forall_implies _ _ _ H H2).
  - rewrite (map_acc_Keeps (visitChild stopEndsTraversal (visit_member visit))
               properties); [done|].
    eapply Forall_impl;
      [|intros m Hm; apply visitChild_Keeps, visit_member_Keeps, Hm].
    eapply Forall_implies; [|exact Hnone].
    eapply Forall_impl; [exact H|]. intros m Hm Hv.
    eapply member_Forall_mp; [exact Hm|]. by apply first_member_None.
  - rewrite (map_acc_Keeps (visit_option visit) elements); [done|].
    eapply Forall_impl; [|intros o; apply visit_option_Keeps].
    eapply Forall_implies; [|exact Hnone].
    eapply Forall_impl; [exact H|]. intros o Ho Hv.
    eapply option_Forall_mp; [exact Ho|]. by apply first_option_None.
  - destruct Hnone as [H1 H2].
    rewrite (map_acc_Keeps
               (visitChild stopEndsTraversal (visit_attribute visit))
               attributes).
    + rewrite (map_acc_Keeps visit children); [done|].
      exact (Forall_implies _ _ _ H0 H2).
    + eapply Forall_impl;
        [|intros a Ha; apply visitChild_Keeps, visit_attribute_Keeps, Ha].
      eapply Forall_implies; [|exact H1].
      eapply Forall_impl; [exact H|]. intros a Ha Hv.
      eapply attribute_Forall_mp; [exact Ha|].
      by apply first_attribute_None.
  - by rewrite (IHn Hnone).
  - done.
  - done.
Qed.

(** X12.  [traverseStyledBinaryExpression] treats an arrow function that is
    an operand as [traverseStyledArrowFunctionExpression] treats one that
    is the whole expression, and stops there, whatever the host does after
    a stop.  An arrow function as the left operand is replaced by its
    handled body and the right operand comes back exactly as it was, arrow
    functions and accesses on [props] included; an arrow function as the
    right operand is handled when nothing on the left holds one; and when
    neither operand holds an arrow function the whole expression and the
    array of names come back unchanged. *)
Theorem traverseStyledBinaryExpression_stops_at_first_arrow
    (operator : string) (lhs rhs : Node) (params : list (Pattern Node))
    (body : Node) (propsToDestructure : list string) :
  let function := ArrowFunctionExpression params body in
  let handled :=
    traverseStyledArrowFunctionExpression isPropValid function
      propsToDestructure in
  traverseStyledBinaryExpression isPropValid stopEndsTraversal
    (BinaryExpression operator function rhs) propsToDestructure
  = (BinaryExpression operator handled.1 rhs, handled.2)
  ∧ (firstArrow lhs = None →
     traverseStyledBinaryExpression isPropValid stopEndsTraversal
       (BinaryExpression operator lhs function) propsToDestructure
     = (BinaryExpression operator lhs handled.1, handled.2))
  ∧ (firstArrow lhs = None → firstArrow rhs = None →
     traverseStyledBinaryExpression isPropValid stopEndsTraversal
       (BinaryExpression operator lhs rhs) propsToDestructure
     = (BinaryExpression operator lhs rhs, propsToDestructure)).
Proof.
  cbn zeta. unfold traverseStyledArrowFunctionExpression.
  cbn [traverseStyledBinaryExpression]. split; [|split].
  - cbn [arrowVisitor fst snd].
    destruct (nestedVisitor isPropValid (ArrowFunctionExpression params body)
                propsToDestructure) as [node' acc].
    by rewrite arrowVisitor_stopped.
  - intros Hlhs. rewrite (arrowVisitor_none_Keeps lhs Hlhs).
    cbn [arrowVisitor fst snd].
    by destruct (nestedVisitor isPropValid
                   (ArrowFunctionExpression params body) propsToDestructure).
  - intros H1 H2.
    by rewrite (arrowVisitor_none_Keeps lhs H1),
      (arrowVisitor_none_Keeps rhs H2).
Qed.
End BinaryFacts.

Lemma traverseStyledBinaryExpression_stops_at_first_arrow_witness :
  traverseStyledBinaryExpression sampleIsPropValid false
    (BinaryExpression "+"
       (ArrowFunctionExpression [PIdentifier "props"]
          (MemberExpression (Identifier "props") "fonty"))
       (ArrowFunctionExpression [PIdentifier "props"]
          (MemberExpression (Identifier "props") "sizey")))
    []
  = (BinaryExpression "+" (Identifier "fonty")
       (ArrowFunctionExpression [PIdentifier "props"]
          (MemberExpression (Identifier "props") "sizey")),
     ["fonty"])
  ∧ traverseStyledBinaryExpression sampleIsPropValid false
      (BinaryExpression "+" (StringLiteral "calc(")
         (ArrowFunctionExpression [PIdentifier "props"]
            (MemberExpression (Identifier "props") "fonty")))
      []
    = (BinaryExpression "+" (StringLiteral "calc(") (Identifier "fonty"),
       ["fonty"]).
Proof.
  destruct (traverseStyledBinaryExpression_stops_at_first_arrow
              sampleIsPropValid false "+" (StringLiteral "calc(")
              (ArrowFunctionExpression [PIdentifier "props"]
                 (MemberExpression (Identifier "props") "sizey"))
              [PIdentifier "props"]
              (MemberExpression (Identifier "props") "fonty") [])
    as (Hleft & Hright & _).
  split; [exact Hleft|]. apply Hright. reflexivity.
Defined.

(** Where the hosts differ.  In
    [("a" + (props => props.fonty)) + (props => props.sizey)] the first
    arrow function is below the left operand: a host whose stop ends the
    traversal leaves the right operand alone, one that gives up no more
    than the rest of the parent goes on and handles the right operand
    too. *)
Lemma traverseStyledBinaryExpression_reach :
  let nested :=
    BinaryExpression "+"
      (BinaryExpression "+" (StringLiteral "a")
         (ArrowFunctionExpression [PIdentifier "props"]
            (MemberExpression (Identifier "props") "fonty")))
      (ArrowFunctionExpression [PIdentifier "props"]
         (MemberExpression (Identifier "props") "sizey")) in
  traverseStyledBinaryExpression sampleIsPropValid true nested []
  = (BinaryExpression "+"
       (BinaryExpression "+" (StringLiteral "a") (Identifier "fonty"))
       (ArrowFunctionExpression [PIdentifier "props"]
          (MemberExpression (Identifier "props") "sizey")),
     ["fonty"])
  ∧ traverseStyledBinaryExpression sampleIsPropValid false nested []
    = (BinaryExpression "+"
         (BinaryExpression "+" (StringLiteral "a") (Identifier "fonty"))
         (Identifier "sizey"),
       ["fonty"; "sizey"]).
Proof. split; vm_compute; reflexivity. Qed.

(** * Further properties of the entry visitor *)

(** X13.  [compiledImports] is renewed at every import from
    ['@compiled/core']: after two such imports the recorded local name of
    [styled] is the one found in the second, so that it is unset when the
    second does not import [styled], whatever the first recorded. *)
Theorem visit_ImportDeclaration_twice {Cache : Type}
    (specifiers1 specifiers2 : list ImportSpecifierNode) (w : World Cache) :
  (do* visit_ImportDeclaration specifiers1 "@compiled/core" in
   visit_ImportDeclaration specifiers2 "@compiled/core") w
  = Ok (ImportDeclaration
          (filter (λ s, styledLocal s = None) specifiers2
           ++ [ImportSpecifier "ax" "ax"; ImportSpecifier "CC" "CC";
               ImportSpecifier "CS" "CS"])
          "@compiled/core",
        mkWorld
          (mkState
             (Some (mkCompiledImports (last (omap styledLocal specifiers2))))
             (sheets (state w)) (nonce (state w)) (cache (state w)))
          (program w)).
Proof.
  unfold visit_ImportDeclaration. rewrite decide_True by done.
  unfold bind, get_state, put_state, ret. rewrite !filterSpecifiers_spec.
  cbn. by destruct (last (omap styledLocal specifiers2)).
Qed.

Section BodyFacts.
Context {Cache : Type}.
Variable visitStyledPath : Node → M Cache (option Node).
Variable visitCssPropPath : Node → M Cache (option Node).

Lemma traverseBody_out_of_range (fuel m cur : nat) (w : World Cache) :
  length (body (program w)) ≤ cur →
  traverseBody visitStyledPath visitCssPropPath fuel m cur w = Ok (tt, w).
Proof.
  intros Hlen. destruct m; [done|]. cbn [traverseBody].
  unfold bind, get_program. cbn. by rewrite lookup_ge_None_2.
Qed.

Lemma traverseBody_skip (fuel m : nat) (w : World Cache) (n : nat) :
  ∀ cur,
    (∀ i s, cur ≤ i < cur + n → body (program w) !! i = Some s →
            visitStatement visitStyledPath visitCssPropPath fuel s w
            = Ok (s, w)) →
    traverseBody visitStyledPath visitCssPropPath fuel (n + m) cur w
    = traverseBody visitStyledPath visitCssPropPath fuel m (cur + n) w.
Proof.
  induction n as [|n IH]; intros cur Hvisit.
  - by rewrite Nat.add_0_r.
  - cbn [Nat.add traverseBody]. unfold bind at 1, get_program at 1. cbn.
    destruct (body (program w) !! cur) as [s|] eqn:Hcur.
    + unfold bind at 1. rewrite (Hvisit cur s) by (done || lia).
      unfold bind, get_program, put_program. cbn.
      rewrite Nat.sub_diag, Nat.add_0_r, list_insert_id by done.
      replace (mkWorld (state w)
                 (mkProgram (body (program w)) (bindings (program w))
                    (taken (program w)))) with w by (by destruct w as [? []]).
      rewrite IH.
      * f_equal. lia.
      * intros i s' Hi. apply Hvisit. lia.
    + symmetry. apply traverseBody_out_of_range.
      apply lookup_ge_None_1 in Hcur. lia.
Qed.

Lemma traverseBody_import (fuel m cur : nat) (w : World Cache)
    (specifiers : list ImportSpecifierNode) :
  body (program w) !! cur
  = Some (ImportDeclaration specifiers "@compiled/core") →
  traverseBody visitStyledPath visitCssPropPath fuel (S m) cur w
  = traverseBody visitStyledPath visitCssPropPath fuel m (S cur)
      (mkWorld
         (mkState
            (Some (mkCompiledImports (last (omap styledLocal specifiers))))
            (sheets (state w)) (nonce (state w)) (cache (state w)))
         (mkProgram
            (<[cur :=
                ImportDeclaration
                  (filter (λ s, styledLocal s = None) specifiers
                   ++ [ImportSpecifier "ax" "ax"; ImportSpecifier "CC" "CC";
                       ImportSpecifier "CS" "CS"])
                  "@compiled/core"]> (body (program w)))
            (bindings (program w)) (taken (program w)))).
Proof.
  intros Hcur. cbn [traverseBody]. unfold bind at 1, get_program at 1. cbn.
  rewrite Hcur. cbn [visitStatement]. unfold visit_ImportDeclaration.
  rewrite decide_True by done.
  unfold bind, get_state, put_state, get_program, put_program, ret.
  rewrite filterSpecifiers_spec. cbn.
  rewrite Nat.sub_diag, Nat.add_0_r.
  by destruct (last (omap styledLocal specifiers)).
Qed.
End BodyFacts.

(** X14.  The pass reacts to the import of the runtime where it stands.  In
    a module whose only import from ['@compiled/core'] comes after some
    statements and is followed by other imports only, those earlier
    statements, call sites included, come out untouched whatever the
    handlers would do, the import is rewritten in place, and
    [import * as React from 'react'] is prepended when [React] is not
    bound. *)
Theorem transform_import_after_call_sites {Cache : Type}
    (initialize : option string → Cache → Cache)
    (visitStyledPath visitCssPropPath : Node → M Cache (option Node))
    (this : State Cache) (c : Cache) (before after : list Statement)
    (specifiers : list ImportSpecifierNode) (bound reserved : gset string) :
  compiledImports this = None →
  Forall (λ s, importsCompiled s = false) before →
  Forall (λ s, isImportDeclaration s = true ∧ importsCompiled s = false)
    after →
  ∃ fuel0, ∀ fuel, fuel0 ≤ fuel →
    transform initialize visitStyledPath visitCssPropPath fuel this c
      (mkProgram
         (before ++ ImportDeclaration specifiers "@compiled/core" :: after)
         bound reserved)
    = Ok (mkProgram
            ((if decide ("React" ∈ bound) then []
              else [ImportDeclaration [ImportNamespaceSpecifier "React"]
                      "react"])
             ++ before
             ++ ImportDeclaration
                  (filter (λ s, styledLocal s = None) specifiers
                   ++ [ImportSpecifier "ax" "ax"; ImportSpecifier "CC" "CC";
                       ImportSpecifier "CS" "CS"])
                  "@compiled/core"
                :: after)
            bound reserved,
          initialize (nonce this) c).
Proof.
  intros Hnone Hbefore Hafter.
  destruct (statements_untouched visitStyledPath visitCssPropPath before
              Hbefore) as [fuel0 Hfuel0].
  exists fuel0. intros fuel Hfuel. specialize (Hfuel0 fuel Hfuel).
  unfold transform, pre. cbn. unfold bind at 1.
  set (import := ImportDeclaration specifiers "@compiled/core").
  set (w0 := mkWorld _ _).
  rewrite length_app. cbn [length].
  rewrite (traverseBody_skip visitStyledPath visitCssPropPath fuel
             (S (length after)) w0 (length before) 0).
  2:{ intros i s Hi Hs. rewrite Forall_forall in Hfuel0.
      apply Hfuel0; [|done]. cbn in Hs.
      rewrite lookup_app_l in Hs by lia. by eapply list_elem_of_lookup_2. }
  cbn [Nat.add].
  rewrite (traverseBody_import visitStyledPath visitCssPropPath fuel
             (length after) (length before) w0 specifiers).
  2:{ cbn. by rewrite list_lookup_middle. }
  cbn [state program w0 body bindings taken sheets nonce cache].
  rewrite insert_app_r_alt, Nat.sub_diag by lia. cbn [insert list_insert].
  set (w1 := mkWorld _ _).
  rewrite <- (Nat.add_0_r (length after)).
  rewrite (traverseBody_skip visitStyledPath visitCssPropPath fuel 0 w1
             (length after) (S (length before))).
  2:{ intros i s Hi Hs. cbn in Hs.
      rewrite lookup_app_r in Hs by lia.
      destruct (i - length before) as [|j] eqn:Ej; [lia|]. cbn in Hs.
      rewrite Forall_forall in Hafter.
      destruct (Hafter s) as [Himport Hother];
        [by eapply list_elem_of_lookup_2|].
      destruct s as [specifiers' source| |]; try done. cbn.
      unfold visit_ImportDeclaration. cbn in Hother.
      apply bool_decide_eq_false in Hother. by rewrite decide_False. }
  cbn [traverseBody]. unfold ret, Program_exit, bind, get_state, get_program.
  cbn. by case_decide.
Qed.

Lemma transform_import_after_call_sites_witness :
  ∃ fuel0, ∀ fuel, fuel0 ≤ fuel →
    transform (λ _ c, c) replaceHandler replaceHandler fuel freshPass tt
      lateImportFile
    = Ok (mkProgram
            [ExpressionStatement
               (JSXElement (Identifier "div")
                  [jsxExpressionAttribute "css" (ObjectExpression [])]
                  [JSXText "hello"]);
             ImportDeclaration
               [ImportSpecifier "ax" "ax"; ImportSpecifier "CC" "CC";
                ImportSpecifier "CS" "CS"]
               "@compiled/core";
             ImportDeclaration [ImportDefaultSpecifier "React"] "react"]
            {["React"]} ∅,
          tt).
Proof.
  destruct (transform_import_after_call_sites (λ _ c, c) replaceHandler
           replaceHandler freshPass tt
           [ExpressionStatement
              (JSXElement (Identifier "div")
                 [jsxExpressionAttribute "css" (ObjectExpression [])]
                 [JSXText "hello"])]
           [ImportDeclaration [ImportDefaultSpecifier "React"] "react"]
           [ImportSpecifier "styled" "styled"] {["React"]} ∅)
    as [fuel0 Hrun].
  - reflexivity.
  - repeat constructor.
  - repeat constructor.
  - exists fuel0. intros fuel Hfuel.
    etrans; [exact (Hrun fuel Hfuel)|]. vm_compute. reflexivity.
Defined.

(** * The join helpers *)

Lemma append_empty_r (s : string) : s +:+ "" = s.
Proof.
  induction s as [|c s IH]; [done|].
  change (String c s +:+ "") with (String c (s +:+ "")). by rewrite IH.
Qed.

(** X15.  Where the left expression evaluates to a string and the right one
    to a string or [undefined], the expression of
    [conditionallyJoinExpressions] evaluates to the left string alone when
    the right value is [undefined] or empty and to [left + " " + right]
    otherwise, which is then also the value of the expression of
    [joinExpressions] with the default spacer; the latter always appends
    the space and the right value, and with no spacer it is the plain
    concatenation. *)
Theorem conditionallyJoinExpressions_value (env : string → JsValue)
    (lhs rhs : Node) (a : string) (v : JsValue) :
  evalString env lhs = Some (VString a) →
  evalString env rhs = Some v →
  evalString env (conditionallyJoinExpressions lhs rhs)
  = Some (VString (if truthy v then a +:+ " " +:+ toString v else a))
  ∧ evalString env (joinExpressions lhs rhs (Some (StringLiteral " ")))
    = Some (VString (a +:+ " " +:+ toString v))
  ∧ evalString env (joinExpressions lhs rhs None)
    = Some (VString (a +:+ toString v)).
Proof.
  intros Hl Hr. unfold conditionallyJoinExpressions, joinExpressions.
  cbn [evalString]. rewrite !decide_True by done. rewrite Hl, Hr.
  cbn [evalString toString]. split; [|split].
  - destruct v as [|b]; cbn; [by rewrite append_empty_r|].
    case_decide; cbn; [by rewrite append_empty_r|done].
  - by destruct v.
  - by destruct v.
Qed.

Lemma conditionallyJoinExpressions_value_witness :
  evalString (λ _, VUndefined)
    (conditionallyJoinExpressions (StringLiteral "_1x") (Identifier "cls"))
  = Some (VString "_1x")
  ∧ evalString (λ _, VUndefined)
      (joinExpressions (StringLiteral "_1x") (Identifier "cls")
         (Some (StringLiteral " ")))
    = Some (VString "_1x undefined").
Proof.
  destruct (conditionallyJoinExpressions_value (λ _, VUndefined)
              (StringLiteral "_1x") (Identifier "cls") "_1x" VUndefined
              eq_refl eq_refl) as (H1 & H2 & _).
  split; [exact H1|exact H2].
Defined.
